(** * nova/cells/manager.py: the cells manager

    A shallow embedding of [CellsManager]: the response aggregation done by
    the query methods, the call/cast proxies, and the periodic task that
    heals instances toward the parent cells.

    Python values are modelled as follows.  An exception is a constructor of
    [Exn] and a method that may raise returns a [Result].  The collaborators
    that live outside this module (the message runner, [cells_utils], the
    database API, the clock and the configuration) are variables of the
    sections below. *)

From stdpp Require Import gmap strings list fin_maps.
From Stdlib Require Import ZArith Lia Ascii.

(** ** Python results *)

Inductive Exn : Type :=
| RemoteFailure (cell : string) (what : string)
| AttributeError
| ValueError
| IndexError.

Inductive Result (A : Type) : Type :=
| Returned (a : A)
| Raised (e : Exn).
Arguments Returned {A} a.
Arguments Raised {A} e.

#[global] Instance result_ret : MRet Result := fun _ a => Returned a.
#[global] Instance result_bind : MBind Result := fun _ _ k m =>
  match m with
  | Returned a => k a
  | Raised e => Raised e
  end.

(** [for x in xs: body], where the body threads the local variables [s] and
    may raise. *)
Fixpoint for_in {A S : Type} (xs : list A) (body : A → S → Result S) (s : S)
  : Result S :=
  match xs with
  | [] => Returned s
  | x :: xs' => s' ← body x s; for_in xs' body s'
  end.

(** ** Responses *)

Inductive Outcome (V : Type) : Type :=
| Value (v : V)
| Failure (what : string).
Arguments Value {V} v.
Arguments Failure {V} what.

Record Response (V : Type) : Type := mkResponse {
  cell_name : string;
  outcome : Outcome V
}.
Arguments mkResponse {V} cell_name outcome.
Arguments cell_name {V} r.
Arguments outcome {V} r.

(** Modelled from the spec: [Response.value_or_raise] of the messaging
    module, which is not part of this file.  It returns the value, or raises
    the captured failure, which keeps the name of the cell it came from. *)
Definition value_or_raise {V : Type} (response : Response V) : Result V :=
  match outcome response with
  | Value v => Returned v
  | Failure what => Raised (RemoteFailure (cell_name response) what)
  end.

(** A name bound to a response or to Python's [None]; calling
    [value_or_raise] on [None] is an attribute error. *)
Definition value_or_raise_py {V : Type} (response : option (Response V))
  : Result V :=
  match response with
  | Some r => value_or_raise r
  | None => Raised AttributeError
  end.

(** [a, b = parts]: unpacking into exactly two names. *)
Definition unpack2 {A : Type} (parts : list A) : Result (A * A) :=
  match parts with
  | [a; b] => Returned (a, b)
  | _ => Raised ValueError
  end.

(** [s[n:]] on a string. *)
Fixpoint string_drop (n : nat) (s : string) : string :=
  match n, s with
  | O, _ => s
  | S n', String _ s' => string_drop n' s'
  | S _, EmptyString => EmptyString
  end.

(** ** The query and proxy methods *)

Section Queries.

(** Opaque request data forwarded as it is (filters, method info, RPC
    messages, period bounds), and the three kinds of rows. *)
Context {Payload Service TaskLog ComputeNode : Type}.

(** [cells_utils], not part of this file. *)
Variable split_cell_and_item : string → list string.
Variable add_cell_to_service : Service → string → Service.
Variable add_cell_to_task_log : TaskLog → string → TaskLog.
Variable add_cell_to_compute_node : ComputeNode → string → ComputeNode.

(** [CONF.compute_topic]. *)
Variable compute_topic : string.

(** [self.msg_runner]: what each of its methods answers.  The two
    call-or-cast methods may answer [None]. *)
Record MessageRunner : Type := mkRunner {
  mr_run_compute_api_method :
    string → Payload → bool → option (Response Payload);
  mr_service_get_all : Payload → list (Response (list Service));
  mr_service_get_by_compute_host : string → string → Response Service;
  mr_proxy_rpc_to_manager :
    string → string → string → Payload → bool → option Z →
    option (Response Payload);
  mr_task_log_get_all :
    option string → Payload → option string → Payload →
    list (Response (list TaskLog));
  mr_compute_node_get : string → string → Response ComputeNode;
  mr_compute_node_get_all : Payload → list (Response (list ComputeNode));
  mr_compute_node_stats : list (Response (gmap string Z))
}.

Variable msg_runner : MessageRunner.

(** A method with no [return] on the taken path returns [None]. *)
Definition run_compute_api_method (cell : string) (method_info : Payload)
    (call : bool) : Result (option Payload) :=
  let response := mr_run_compute_api_method msg_runner cell method_info call in
  if call then v ← value_or_raise_py response; mret (Some v)
  else mret None.

Definition service_get_all (filters : Payload) : Result (list Service) :=
  let responses := mr_service_get_all msg_runner filters in
  for_in responses (fun response ret_services =>
    services ← value_or_raise response;
    mret (foldl (fun ret service =>
                   ret ++ [add_cell_to_service service (cell_name response)])
                ret_services services)) [].

Definition service_get_by_compute_host (host_name : string)
  : Result Service :=
  '(cell, host_name) ← unpack2 (split_cell_and_item host_name);
  let response := mr_service_get_by_compute_host msg_runner cell host_name in
  service ← value_or_raise response;
  mret (add_cell_to_service service (cell_name response)).

Definition proxy_rpc_to_manager (topic : string) (rpc_message : Payload)
    (call : bool) (timeout : option Z) : Result Payload :=
  let cell_and_host := string_drop (String.length compute_topic + 1) topic in
  '(cell, host_name) ← unpack2 (split_cell_and_item cell_and_host);
  let response := mr_proxy_rpc_to_manager msg_runner cell host_name topic
                    rpc_message call timeout in
  value_or_raise_py response.

(** The first lines of [task_log_get_all]: the cell and the host the query
    goes to.  [result[0]] of an empty result is an index error. *)
Definition task_log_target (host : option string)
  : Result (option string * option string) :=
  match host with
  | None => Returned (None, None)
  | Some h =>
      match split_cell_and_item h with
      | [] => Raised IndexError
      | [c] => Returned (Some c, None)
      | c :: h' :: _ => Returned (Some c, Some h')
      end
  end.

Definition task_log_get_all (query : Payload) (host : option string)
    (state : Payload) : Result (list TaskLog) :=
  '(cell, host) ← task_log_target host;
  let responses := mr_task_log_get_all msg_runner cell query host state in
  for_in responses (fun response ret_task_logs =>
    task_logs ← value_or_raise response;
    mret (foldl (fun ret task_log =>
                   ret ++ [add_cell_to_task_log task_log (cell_name response)])
                ret_task_logs task_logs)) [].

Definition compute_node_get (compute_id : string) : Result ComputeNode :=
  '(cell, compute_id) ← unpack2 (split_cell_and_item compute_id);
  let response := mr_compute_node_get msg_runner cell compute_id in
  node ← value_or_raise response;
  mret (add_cell_to_compute_node node cell).

Definition compute_node_get_all (hypervisor_match : Payload)
  : Result (list ComputeNode) :=
  let responses := mr_compute_node_get_all msg_runner hypervisor_match in
  for_in responses (fun response ret_nodes =>
    nodes ← value_or_raise response;
    mret (foldl (fun ret node =>
                   ret ++ [add_cell_to_compute_node node (cell_name response)])
                ret_nodes nodes)) [].

(** [totals.setdefault(key, 0); totals[key] += val]. *)
Definition add_total (totals : gmap string Z) (key : string) (val : Z)
  : gmap string Z :=
  let totals := match totals !! key with
                | Some _ => totals
                | None => <[key := 0%Z]> totals
                end in
  <[key := (default 0%Z (totals !! key) + val)%Z]> totals.

Definition compute_node_stats : Result (gmap string Z) :=
  let responses := mr_compute_node_stats msg_runner in
  for_in responses (fun response totals =>
    data ← value_or_raise response;
    mret (foldl (fun totals kv => add_total totals kv.1 kv.2)
                totals (map_to_list data))) ∅.

End Queries.


(** ** The periodic task that heals instances *)

(** A row of the instances table, as far as this module reads it. *)
Record Instance : Type := mkInstance {
  uuid : string;
  deleted : bool
}.

(** What the manager asks the message runner to broadcast to the parents. *)
Inductive Emission : Type :=
| UpdateAtTop (instance : Instance)
| DestroyAtTop (instance : Instance).

(** The state one run of the task works on: the iterator
    [self.instances_to_heal] (what is left of it), the flag
    [info['updated_list']] of the run, and three logs of what was asked of
    the collaborators, oldest first: the [updated_since] argument of every
    call of [cells_utils.get_instances_to_sync], every uuid looked up in the
    database with what the lookup answered, and every message handed to the
    message runner. *)
Record Heal : Type := mkHeal {
  instances_to_heal : list string;
  updated_list : bool;
  scans : list (option Z);
  looked_up : list (string * option Instance);
  sent : list Emission
}.

(** How a pass through the body of [while True] leaves the loop. *)
Inductive Exit : Type :=
| Break
| Return.

(** [not instance_uuid] for a string. *)
Definition falsy (s : string) : bool :=
  match s with
  | EmptyString => true
  | String _ _ => false
  end.

Definition instance_update_at_top (instance : Instance) (s : Heal) : Heal :=
  mkHeal (instances_to_heal s) (updated_list s) (scans s) (looked_up s)
         (sent s ++ [UpdateAtTop instance]).

Definition instance_destroy_at_top (instance : Instance) (s : Heal) : Heal :=
  mkHeal (instances_to_heal s) (updated_list s) (scans s) (looked_up s)
         (sent s ++ [DestroyAtTop instance]).

Definition _sync_instance (instance : Instance) (s : Heal) : Heal :=
  if deleted instance then instance_destroy_at_top instance s
  else instance_update_at_top instance s.

(** The call [self.db.instance_get_by_uuid(rd_context, uuid)] and its
    answer, entered in the log. *)
Definition db_lookup (u : string) (found : option Instance) (s : Heal)
  : Heal :=
  mkHeal (instances_to_heal s) (updated_list s) (scans s)
         (looked_up s ++ [(u, found)]) (sent s).

Section HealInstances.

(** [self.state_manager.get_parent_cells()]. *)
Variable get_parent_cells : list string.
(** [cells_utils.get_instances_to_sync(ctxt, updated_since=..., shuffle=True,
    uuids_only=True)]: the uuids it yields, in the order it yields them. *)
Variable get_instances_to_sync : option Z → list string.
(** [self.db.instance_get_by_uuid], [None] for [InstanceNotFound]. *)
Variable instance_get_by_uuid : string → option Instance.
(** [timeutils.utcnow()], in seconds. *)
Variable utcnow : Z.
(** [CONF.cells.instance_updated_at_threshold] and
    [CONF.cells.instance_update_num_instances]. *)
Variable instance_updated_at_threshold : Z.
Variable instance_update_num_instances : Z.

(** The [updated_since] computed before the list is fetched. *)
Definition updated_since : option Z :=
  let threshold := instance_updated_at_threshold in
  if (0 <? threshold)%Z then Some (utcnow - threshold)%Z else None.

(** The closure [_next_instance]: the next uuid, or [None]. *)
Definition _next_instance (s : Heal) : option string * Heal :=
  match instances_to_heal s with
  | instance :: rest =>
      (Some instance,
       mkHeal rest (updated_list s) (scans s) (looked_up s) (sent s))
  | [] =>
      if updated_list s then (None, s)
      else
        let fetched := get_instances_to_sync updated_since in
        let scans' := scans s ++ [updated_since] in
        match fetched with
        | instance :: rest =>
            (Some instance, mkHeal rest true scans' (looked_up s) (sent s))
        | [] => (None, mkHeal [] true scans' (looked_up s) (sent s))
        end
  end.

(** One pass through the body of [while True], after [_next_instance]:
    [inl] to go round again, [inr] to leave. *)
Definition while_body (s : Heal) : Heal + Exit * Heal :=
  let '(instance_uuid, s1) := _next_instance s in
  match instance_uuid with
  | None => inr (Return, s1)
  | Some u =>
      if falsy u then inr (Return, s1)
      else
        let found := instance_get_by_uuid u in
        let s2 := db_lookup u found s1 in
        match found with
        | None => inl s2
        | Some instance => inr (Break, _sync_instance instance s2)
        end
  end.

Fixpoint while_fuel (fuel : nat) (s : Heal) : option (Exit * Heal) :=
  match fuel with
  | O => None
  | S fuel' =>
      match while_body s with
      | inl s1 => while_fuel fuel' s1
      | inr r => Some r
      end
  end.

(** The uuids the loop can still see: the rest of the iterator, and the
    list to fetch if it has not been fetched in this run. *)
Definition in_reach (s : Heal) : nat :=
  length (instances_to_heal s)
  + (if updated_list s then 0
     else S (length (get_instances_to_sync updated_since))).

(** [while True: ...].  The loop goes round at most [in_reach s] times
    (lemma [while_true_eq] below), so the last case is never taken. *)
Definition while_true (s : Heal) : Exit * Heal :=
  match while_fuel (S (in_reach s)) s with
  | Some r => r
  | None => (Return, s)
  end.

(** [for i in xrange(n): while True: ...]. *)
Fixpoint for_xrange (n : nat) (s : Heal) : Heal :=
  match n with
  | O => s
  | S n' =>
      match while_true s with
      | (Break, s') => for_xrange n' s'
      | (Return, s') => s'
      end
  end.

Definition _heal_instances (s : Heal) : Heal :=
  match get_parent_cells with
  | [] => s
  | _ :: _ =>
      let s0 := mkHeal (instances_to_heal s) false (scans s) (looked_up s)
                       (sent s) in
      for_xrange (Z.to_nat instance_update_num_instances) s0
  end.

End HealInstances.


(** ** Vocabulary of the statements *)

(** A response that carries a value, and one that carries a failure. *)
Definition ok {V : Type} (cell : string) (v : V) : Response V :=
  mkResponse cell (Value v).

Definition failed {V : Type} (cell : string) (what : string) : Response V :=
  mkResponse cell (Failure what).

(** The responses of cells that all carry a value. *)
Definition answers {V : Type} (cells : list (string * V))
  : list (Response V) :=
  map (fun cv => ok cv.1 cv.2) cells.

(** The body of the loop of the three list queries: unwrap, then append
    every row with its cell added. *)
Definition concat_body {A : Type} (add_cell : A → string → A)
    (response : Response (list A)) (ret : list A) : Result (list A) :=
  rows ← value_or_raise response;
  mret (foldl (fun ret row => ret ++ [add_cell row (cell_name response)])
              ret rows).

(** The body of the loop of [compute_node_stats]: unwrap, then add every
    value to the total under its key. *)
Definition stats_body (response : Response (gmap string Z))
    (totals : gmap string Z) : Result (gmap string Z) :=
  data ← value_or_raise response;
  mret (foldl (fun totals kv => add_total totals kv.1 kv.2)
              totals (map_to_list data)).

(** The rows of every cell in the order of the cells, each row passed
    through [add_cell] with the name of its cell. *)
Definition tagged {A : Type} (add_cell : A → string → A)
    (cells : list (string * list A)) : list A :=
  flat_map (fun cv => map (fun x => add_cell x cv.1) cv.2) cells.

(** The sum over the cells of the value under [key], a cell without the key
    counting for zero. *)
Definition sum_key (key : string) (cells : list (string * gmap string Z)) : Z :=
  foldr (fun cv acc => (default 0 (cv.2 !! key) + acc)%Z) 0%Z cells.

(** The message an instance calls for. *)
Definition emission_of (instance : Instance) : Emission :=
  if deleted instance then DestroyAtTop instance else UpdateAtTop instance.

(** The instances the lookups of a log found. *)
Definition found_in (log : list (string * option Instance)) : list Instance :=
  omap snd log.

(** Between [s] and [s'] the list of instances was fetched at most once:
    either nothing was fetched, or it was fetched once, with [since], by a
    run that had not fetched before and now has. *)
Definition fetched_at_most_once (since : option Z) (s s' : Heal) : Prop :=
  (scans s' = scans s ∧ updated_list s' = updated_list s)
  ∨ (updated_list s = false ∧ updated_list s' = true
     ∧ scans s' = scans s ++ [since]).

(** Between [s] and [s'] the lookups [log] were made, each answered by
    [db], and one message was sent for each instance found, in the order
    of the lookups. *)
Definition synced_through (db : string → option Instance)
    (log : list (string * option Instance)) (s s' : Heal) : Prop :=
  looked_up s' = looked_up s ++ log
  ∧ sent s' = sent s ++ map emission_of (found_in log)
  ∧ Forall (fun entry => entry.2 = db entry.1) log.

(** What [_next_instance] drew from the iterator it left behind: the uuid
    it returned, if any, followed by what is left. *)
Definition drawn (r : option string * Heal) : list string :=
  match r.1 with
  | Some u => u :: instances_to_heal r.2
  | None => instances_to_heal r.2
  end.

(** The uuids a run can still draw, in the order it would draw them: the
    rest of the iterator, then the list to fetch if the run has not fetched
    it yet. *)
Definition supply (get_instances_to_sync : option Z → list string)
    (since : option Z) (s : Heal) : list string :=
  instances_to_heal s
  ++ (if updated_list s then [] else get_instances_to_sync since).

(** The log of looking up [uuids] one after the other in [db]. *)
Definition lookups (db : string → option Instance) (uuids : list string)
  : list (string * option Instance) :=
  map (fun u => (u, db u)) uuids.

(** A uuid the run goes on with: not empty. *)
Definition truthy (u : string) : Prop := falsy u = false.

(** Out of the uuids [before], a run drew those of the lookups [log], none
    of them empty, then [stop], which is nothing or one empty uuid, and left
    [after]. *)
Definition drew_through (before after : list string)
    (log : list (string * option Instance)) (stop : list string) : Prop :=
  before = log.*1 ++ stop ++ after
  ∧ Forall truthy log.*1
  ∧ (stop = [] ∨ ∃ u, stop = [u] ∧ falsy u = true).

(** ** Data for the examples *)

(** The text before and after the first [sep]; the whole text alone when
    there is no [sep]. *)
Fixpoint cut_at (sep : Ascii.ascii) (s : string) : list string :=
  match s with
  | EmptyString => [EmptyString]
  | String c s' =>
      if Ascii.eqb c sep then [EmptyString; s']
      else match cut_at sep s' with
           | p :: ps => String c p :: ps
           | [] => [String c EmptyString]
           end
  end.

Definition example_split (s : string) : list string := cut_at "@"%char s.

(** Rows are strings in the examples, and the cell is written before the
    row. *)
Definition example_add_cell (row cell : string) : string :=
  cell +:+ "!" +:+ row.

(** A message runner whose cells always answer the same. *)
Definition example_runner (cast_reply : option (Response string))
    (rows : list (Response (list string))) (row : Response string)
    (stats : list (Response (gmap string Z)))
  : @MessageRunner string string string string :=
  mkRunner (fun _ _ _ => cast_reply) (fun _ => rows) (fun _ _ => row)
           (fun _ _ _ _ _ _ => cast_reply) (fun _ _ _ _ => rows)
           (fun _ _ => row) (fun _ => rows) stats.

(** An instances table with a live instance, a deleted one, and a uuid that
    is listed but gone. *)
Definition example_db (u : string) : option Instance :=
  if String.eqb u "live" then Some (mkInstance "live" false)
  else if String.eqb u "dead" then Some (mkInstance "dead" true)
  else None.

Definition example_listing (since : option Z) : list string :=
  ["gone"; "live"; "dead"; "live"].

Definition example_start : Heal := mkHeal [] false [] [] [].


(** * Properties *)

(** ** The loops that aggregate responses *)

Section AggregationLoops.

Context {A : Type}.
Variable add_cell : A → string → A.

Lemma foldl_append_map {B : Type} (f : B → A) (rows : list B) (acc : list A) :
  foldl (fun ret row => ret ++ [f row]) acc rows = acc ++ map f rows.
Proof.
  revert acc. induction rows as [|row rows IH]; intros acc; simpl.
  - by rewrite app_nil_r.
  - rewrite IH. by rewrite <- app_assoc.
Qed.

Lemma concat_loop_answers (cells : list (string * list A)) (acc : list A) :
  for_in (answers cells) (concat_body add_cell) acc = Returned (acc ++ tagged add_cell cells).
Proof.
  revert acc. induction cells as [|[c rows] cells IH]; intros acc; simpl.
  - by rewrite app_nil_r.
  - unfold concat_body at 1. simpl. unfold mbind, result_bind, mret, result_ret.
    simpl. rewrite foldl_append_map. rewrite IH.
    unfold tagged. simpl. by rewrite <- app_assoc.
Qed.

Lemma concat_loop_failed (before : list (string * list A)) (cell what : string)
    (after : list (Response (list A))) (acc : list A) :
  for_in (answers before ++ failed cell what :: after) (concat_body add_cell) acc
  = Raised (RemoteFailure cell what).
Proof.
  revert acc. induction before as [|[c rows] before IH]; intros acc; simpl.
  - reflexivity.
  - unfold concat_body at 1. simpl. unfold mbind, result_bind, mret, result_ret.
    simpl. apply IH.
Qed.

End AggregationLoops.

(** ** The list queries *)

Section ListQueries.

Context {Payload Service TaskLog ComputeNode : Type}.
Variable split_cell_and_item : string → list string.
Variable add_cell_to_service : Service → string → Service.
Variable add_cell_to_task_log : TaskLog → string → TaskLog.
Variable add_cell_to_compute_node : ComputeNode → string → ComputeNode.
Variable msg_runner : @MessageRunner Payload Service TaskLog ComputeNode.

(** Each list query is the shared loop run on what the message runner
    answered. *)
Lemma service_get_all_loop (filters : Payload) :
  service_get_all add_cell_to_service msg_runner filters
  = for_in (mr_service_get_all msg_runner filters)
           (concat_body add_cell_to_service) [].
Proof. reflexivity. Qed.

Lemma compute_node_get_all_loop (hypervisor_match : Payload) :
  compute_node_get_all add_cell_to_compute_node msg_runner hypervisor_match
  = for_in (mr_compute_node_get_all msg_runner hypervisor_match)
           (concat_body add_cell_to_compute_node) [].
Proof. reflexivity. Qed.

Lemma task_log_get_all_loop (query state : Payload)
    (host : option string) (cell host' : option string) :
  task_log_target split_cell_and_item host = Returned (cell, host') →
  task_log_get_all split_cell_and_item add_cell_to_task_log msg_runner
                   query host state
  = for_in (mr_task_log_get_all msg_runner cell query host' state)
           (concat_body add_cell_to_task_log) [].
Proof.
  intros Htarget. unfold task_log_get_all. rewrite Htarget. reflexivity.
Qed.

(** C4: when the responses of a list query ([service_get_all],
    [task_log_get_all], [compute_node_get_all]) hold a failure, the query
    raises the failure of the first such response, with the name of its
    cell, whatever the responses after it hold; it returns no list. *)
Theorem list_queries_raise_first_failure
    (filters query state hypervisor_match : Payload)
    (host cell host' : option string)
    (before_s : list (string * list Service))
    (after_s : list (Response (list Service)))
    (before_t : list (string * list TaskLog))
    (after_t : list (Response (list TaskLog)))
    (before_n : list (string * list ComputeNode))
    (after_n : list (Response (list ComputeNode)))
    (bad what : string) :
  (mr_service_get_all msg_runner filters
     = answers before_s ++ failed bad what :: after_s →
   service_get_all add_cell_to_service msg_runner filters
     = Raised (RemoteFailure bad what))
  ∧ (task_log_target split_cell_and_item host = Returned (cell, host') →
     mr_task_log_get_all msg_runner cell query host' state
       = answers before_t ++ failed bad what :: after_t →
     task_log_get_all split_cell_and_item add_cell_to_task_log msg_runner
                      query host state
       = Raised (RemoteFailure bad what))
  ∧ (mr_compute_node_get_all msg_runner hypervisor_match
       = answers before_n ++ failed bad what :: after_n →
     compute_node_get_all add_cell_to_compute_node msg_runner
                          hypervisor_match
       = Raised (RemoteFailure bad what)).
Proof.
  split; [|split].
  - intros Hresp. rewrite service_get_all_loop, Hresp.
    apply concat_loop_failed.
  - intros Htarget Hresp.
    rewrite (task_log_get_all_loop _ _ _ _ _ Htarget), Hresp.
    apply concat_loop_failed.
  - intros Hresp. rewrite compute_node_get_all_loop, Hresp.
    apply concat_loop_failed.
Qed.

(** C5: when every response of a list query carries a value, the query
    returns the rows of all the cells, cell after cell in the order of the
    responses and each cell's rows in their order, every row with the cell
    name of its response added. *)
Theorem list_queries_concatenate_in_order
    (filters query state hypervisor_match : Payload)
    (host cell host' : option string)
    (cells_s : list (string * list Service))
    (cells_t : list (string * list TaskLog))
    (cells_n : list (string * list ComputeNode)) :
  (mr_service_get_all msg_runner filters = answers cells_s →
   service_get_all add_cell_to_service msg_runner filters
     = Returned (tagged add_cell_to_service cells_s))
  ∧ (task_log_target split_cell_and_item host = Returned (cell, host') →
     mr_task_log_get_all msg_runner cell query host' state
       = answers cells_t →
     task_log_get_all split_cell_and_item add_cell_to_task_log msg_runner
                      query host state
       = Returned (tagged add_cell_to_task_log cells_t))
  ∧ (mr_compute_node_get_all msg_runner hypervisor_match = answers cells_n →
     compute_node_get_all add_cell_to_compute_node msg_runner
                          hypervisor_match
       = Returned (tagged add_cell_to_compute_node cells_n)).
Proof.
  split; [|split].
  - intros Hresp. rewrite service_get_all_loop, Hresp.
    apply (concat_loop_answers add_cell_to_service cells_s []).
  - intros Htarget Hresp.
    rewrite (task_log_get_all_loop _ _ _ _ _ Htarget), Hresp.
    apply (concat_loop_answers add_cell_to_task_log cells_t []).
  - intros Hresp. rewrite compute_node_get_all_loop, Hresp.
    apply (concat_loop_answers add_cell_to_compute_node cells_n []).
Qed.

End ListQueries.

(** ** The statistics query *)

Lemma add_total_lookup (totals : gmap string Z) (key k : string) (val : Z) :
  add_total totals key val !! k
  = if decide (key = k) then Some (default 0 (totals !! key) + val)%Z
    else totals !! k.
Proof.
  unfold add_total. destruct (totals !! key) as [old|] eqn:Hkey.
  - rewrite lookup_insert. case_decide; [by rewrite Hkey | done].
  - rewrite lookup_insert. case_decide.
    + by rewrite lookup_insert_eq.
    + by rewrite lookup_insert_ne.
Qed.

Lemma fold_add_total_lookup (l : list (string * Z)) (totals : gmap string Z)
    (k : string) :
  NoDup l.*1 →
  foldl (fun t kv => add_total t kv.1 kv.2) totals l !! k
  = match (list_to_map l : gmap string Z) !! k with
    | Some v => Some (default 0 (totals !! k) + v)%Z
    | None => totals !! k
    end.
Proof.
  revert totals. induction l as [|[key val] l IH]; intros totals Hnodup.
  - reflexivity.
  - simpl in *. apply NoDup_cons in Hnodup as [Hfresh Hnodup].
    rewrite IH by done. rewrite add_total_lookup.
    destruct (decide (key = k)) as [->|Hne].
    + rewrite lookup_insert_eq.
      by rewrite (not_elem_of_list_to_map_1 _ _ Hfresh).
    + rewrite lookup_insert_ne by done. reflexivity.
Qed.

Lemma stats_body_lookup (cell : string) (data totals : gmap string Z) :
  ∃ totals', stats_body (ok cell data) totals = Returned totals'
    ∧ ∀ k, totals' !! k
           = match data !! k with
             | Some v => Some (default 0 (totals !! k) + v)%Z
             | None => totals !! k
             end.
Proof.
  eexists. split; [reflexivity|]. intros k.
  rewrite fold_add_total_lookup by apply NoDup_fst_map_to_list.
  by rewrite list_to_map_to_list.
Qed.

Lemma stats_loop (cells : list (string * gmap string Z))
    (totals : gmap string Z) :
  ∃ totals', for_in (answers cells) stats_body totals = Returned totals'
    ∧ ∀ k, (default 0 (totals' !! k)
            = default 0 (totals !! k) + sum_key k cells)%Z
         ∧ (is_Some (totals' !! k)
            ↔ is_Some (totals !! k)
              ∨ Exists (fun cv => is_Some (cv.2 !! k)) cells).
Proof.
  revert totals. induction cells as [|[c data] cells IH]; intros totals.
  - exists totals. split; [reflexivity|]. intros k. split.
    + simpl. lia.
    + rewrite Exists_nil. tauto.
  - destruct (stats_body_lookup c data totals) as (t1 & Hbody & Ht1).
    destruct (IH t1) as (t2 & Hloop & Ht2).
    exists t2. split.
    + change (for_in (answers ((c, data) :: cells)) stats_body totals)
        with (s' ← stats_body (ok c data) totals;
              for_in (answers cells) stats_body s').
      rewrite Hbody. exact Hloop.
    + intros k. destruct (Ht2 k) as [Hsum Hdom]. rewrite Hsum, Hdom.
      rewrite (Ht1 k), Exists_cons. simpl.
      destruct (data !! k) as [v|]; simpl.
      * split; [lia|]. split; [intros _; right; left; eauto|eauto].
      * split; [lia|]. split.
        -- intros [?|?]; [by left|by right; right].
        -- intros [?|[[? [=]]|?]]; [by left|by right].
Qed.

Section StatsQuery.

Context {Payload Service TaskLog ComputeNode : Type}.
Variable msg_runner : @MessageRunner Payload Service TaskLog ComputeNode.

(** C6: when every response of [compute_node_stats] carries a map of
    numbers, the query returns a map whose value under each key is the sum,
    over all the cells, of their values under that key, a cell whose map
    lacks the key adding zero; the keys of the result are the keys that
    some cell has. *)
Theorem compute_node_stats_sums_by_key
    (cells : list (string * gmap string Z)) :
  mr_compute_node_stats msg_runner = answers cells →
  ∃ totals, compute_node_stats msg_runner = Returned totals
    ∧ ∀ key, default 0%Z (totals !! key) = sum_key key cells
           ∧ (is_Some (totals !! key)
              ↔ Exists (fun cv => is_Some (cv.2 !! key)) cells).
Proof.
  intros Hresp.
  destruct (stats_loop cells ∅) as (totals & Hloop & Htotals).
  exists totals. split.
  - unfold compute_node_stats. rewrite Hresp. exact Hloop.
  - intros key. destruct (Htotals key) as [Hsum Hdom]. split.
    + rewrite Hsum, lookup_empty. simpl. lia.
    + rewrite Hdom, lookup_empty. split; [|by right].
      intros [[? [=]]|?]; done.
Qed.

End StatsQuery.

(** ** The targeted queries and the proxies *)

Section Targeted.

Context {Payload Service TaskLog ComputeNode : Type}.
Variable split_cell_and_item : string → list string.
Variable add_cell_to_service : Service → string → Service.
Variable add_cell_to_compute_node : ComputeNode → string → ComputeNode.
Variable compute_topic : string.
Variable msg_runner : @MessageRunner Payload Service TaskLog ComputeNode.

(** C10: when [compute_id] splits into a cell and an item, and the cell
    that answers (whatever name its response carries) answers with a node,
    [compute_node_get] returns the node with the cell split off
    [compute_id] added; [service_get_by_compute_host], on a name that splits
    the same way, adds the cell name carried by the response. *)
Theorem compute_node_get_adds_requested_cell
    (compute_id cell item responder : string)
    (node : ComputeNode) (service : Service) :
  split_cell_and_item compute_id = [cell; item] →
  (mr_compute_node_get msg_runner cell item = ok responder node →
   compute_node_get split_cell_and_item add_cell_to_compute_node msg_runner
                    compute_id
     = Returned (add_cell_to_compute_node node cell))
  ∧ (mr_service_get_by_compute_host msg_runner cell item
       = ok responder service →
     service_get_by_compute_host split_cell_and_item add_cell_to_service
                                 msg_runner compute_id
       = Returned (add_cell_to_service service responder)).
Proof.
  intros Hsplit. split; intros Hresp.
  - unfold compute_node_get. rewrite Hsplit. simpl. rewrite Hresp.
    reflexivity.
  - unfold service_get_by_compute_host. rewrite Hsplit. simpl.
    rewrite Hresp. reflexivity.
Qed.

(** C1, what the code does: [proxy_rpc_to_manager] unwraps whatever the
    message runner answered, for a cast ([call] false) as for a call, where
    [run_compute_api_method] returns [None] from a cast without a look at
    the answer. *)
Theorem proxy_rpc_to_manager_unwraps_casts
    (topic cell host : string) (rpc_message : Payload) (call : bool)
    (timeout : option Z) :
  split_cell_and_item (string_drop (String.length compute_topic + 1) topic)
    = [cell; host] →
  proxy_rpc_to_manager split_cell_and_item compute_topic msg_runner
                       topic rpc_message call timeout
    = value_or_raise_py
        (mr_proxy_rpc_to_manager msg_runner cell host topic rpc_message
                                 call timeout)
  ∧ run_compute_api_method msg_runner cell rpc_message false
    = Returned None.
Proof.
  intros Hsplit. split; [|reflexivity].
  unfold proxy_rpc_to_manager. rewrite Hsplit. reflexivity.
Qed.

End Targeted.

(** ** The statements above on the example data *)

Lemma list_queries_raise_first_failure_example :
  let runner := example_runner None
                  [ok "a" ["s1"]; failed "b" "boom"; ok "c" ["s2"];
                   failed "d" "late"]
                  (ok "a" "s") [] in
  service_get_all example_add_cell runner "filters"
    = Raised (RemoteFailure "b" "boom")
  ∧ task_log_get_all example_split example_add_cell runner "task"
                     (Some "a@host1") "state"
    = Raised (RemoteFailure "b" "boom")
  ∧ compute_node_get_all example_add_cell runner "match"
    = Raised (RemoteFailure "b" "boom").
Proof.
  intros runner.
  pose proof (list_queries_raise_first_failure
                example_split example_add_cell example_add_cell
                example_add_cell runner "filters" "task" "state" "match"
                (Some "a@host1") (Some "a") (Some "host1")
                [("a", ["s1"])] [ok "c" ["s2"]; failed "d" "late"]
                [("a", ["s1"])] [ok "c" ["s2"]; failed "d" "late"]
                [("a", ["s1"])] [ok "c" ["s2"]; failed "d" "late"]
                "b" "boom") as (Hs & Ht & Hn).
  split; [|split].
  - apply Hs. reflexivity.
  - apply Ht; reflexivity.
  - apply Hn. reflexivity.
Defined.

Lemma list_queries_concatenate_in_order_example :
  let runner := example_runner None [ok "a" ["1"; "2"]; ok "b" ["3"]]
                  (ok "a" "s") [] in
  service_get_all example_add_cell runner "filters"
    = Returned ["a!1"; "a!2"; "b!3"]
  ∧ task_log_get_all example_split example_add_cell runner "task"
                     None "state"
    = Returned ["a!1"; "a!2"; "b!3"]
  ∧ compute_node_get_all example_add_cell runner "match"
    = Returned ["a!1"; "a!2"; "b!3"].
Proof.
  intros runner.
  pose proof (list_queries_concatenate_in_order
                example_split example_add_cell example_add_cell
                example_add_cell runner "filters" "task" "state" "match"
                None None None
                [("a", ["1"; "2"]); ("b", ["3"])]
                [("a", ["1"; "2"]); ("b", ["3"])]
                [("a", ["1"; "2"]); ("b", ["3"])]) as (Hs & Ht & Hn).
  split; [|split].
  - apply Hs. reflexivity.
  - apply Ht; reflexivity.
  - apply Hn. reflexivity.
Defined.

Lemma compute_node_stats_sums_by_key_example :
  let cells : list (string * gmap string Z) :=
    [("a", <["x" := 1%Z]> (<["y" := 2%Z]> ∅)); ("b", <["x" := 3%Z]> ∅)] in
  ∃ totals,
    compute_node_stats (example_runner None [] (ok "a" "s") (answers cells))
      = Returned totals
    ∧ ∀ key, default 0%Z (totals !! key) = sum_key key cells
           ∧ (is_Some (totals !! key)
              ↔ Exists (fun cv => is_Some (cv.2 !! key)) cells).
Proof.
  intros cells.
  apply (compute_node_stats_sums_by_key
           (example_runner None [] (ok "a" "s") (answers cells)) cells).
  reflexivity.
Defined.

Lemma compute_node_get_adds_requested_cell_example :
  let runner := example_runner None [] (ok "cellB" "node7") [] in
  compute_node_get example_split example_add_cell runner "cellA@7"
    = Returned "cellA!node7"
  ∧ service_get_by_compute_host example_split example_add_cell runner
                                "cellA@7"
    = Returned "cellB!node7".
Proof.
  intros runner.
  pose proof (compute_node_get_adds_requested_cell
                example_split example_add_cell example_add_cell runner
                "cellA@7" "cellA" "7" "cellB" "node7" "node7"
                eq_refl) as [Hnode Hservice].
  split.
  - apply Hnode. reflexivity.
  - apply Hservice. reflexivity.
Defined.

(** A cast through the proxy: the message runner answers [None], the
    unwrapping fails, and the cast that should return nothing raises; the
    same cast through [run_compute_api_method] returns [None]. *)
Lemma proxy_rpc_to_manager_unwraps_casts_example :
  let runner := example_runner None [] (ok "a" "s") [] in
  proxy_rpc_to_manager example_split "compute" runner
                       "compute.cellA@host1" "message" false None
    = Raised AttributeError
  ∧ run_compute_api_method runner "cellA" "message" false = Returned None.
Proof.
  intros runner.
  destruct (proxy_rpc_to_manager_unwraps_casts
              example_split "compute" runner "compute.cellA@host1"
              "cellA" "host1" "message" false None eq_refl)
    as [Hproxy Hsibling].
  split.
  - rewrite Hproxy. reflexivity.
  - exact Hsibling.
Defined.


(** ** The periodic task *)

Section HealFacts.

Variable get_parent_cells : list string.
Variable get_instances_to_sync : option Z → list string.
Variable instance_get_by_uuid : string → option Instance.
Variable utcnow : Z.
Variable instance_updated_at_threshold : Z.
Variable instance_update_num_instances : Z.

Local Abbreviation since := (updated_since utcnow instance_updated_at_threshold).
Local Abbreviation next := (_next_instance get_instances_to_sync utcnow
                                 instance_updated_at_threshold).
Local Abbreviation body := (while_body get_instances_to_sync instance_get_by_uuid
                             utcnow instance_updated_at_threshold).
Local Abbreviation loop := (while_true get_instances_to_sync instance_get_by_uuid
                             utcnow instance_updated_at_threshold).
Local Abbreviation loop_fuel := (while_fuel get_instances_to_sync instance_get_by_uuid
                                  utcnow instance_updated_at_threshold).
Local Abbreviation reach := (in_reach get_instances_to_sync utcnow
                            instance_updated_at_threshold).
Local Abbreviation slots := (for_xrange get_instances_to_sync instance_get_by_uuid
                              utcnow instance_updated_at_threshold).
Local Abbreviation heal := (_heal_instances get_parent_cells get_instances_to_sync
                                  instance_get_by_uuid utcnow
                                  instance_updated_at_threshold
                                  instance_update_num_instances).

(** *** [_next_instance] *)

Lemma next_instance_cases (s : Heal) :
  (∃ u rest, instances_to_heal s = u :: rest
     ∧ next s = (Some u, mkHeal rest (updated_list s) (scans s)
                                (looked_up s) (sent s)))
  ∨ (instances_to_heal s = [] ∧ updated_list s = true ∧ next s = (None, s))
  ∨ (instances_to_heal s = [] ∧ updated_list s = false
     ∧ ∃ r rest, next s = (r, mkHeal rest true (scans s ++ [since])
                                    (looked_up s) (sent s))
         ∧ ((r = None ∧ rest = [] ∧ get_instances_to_sync since = [])
            ∨ (∃ u, r = Some u ∧ get_instances_to_sync since = u :: rest))).
Proof.
  unfold _next_instance.
  destruct (instances_to_heal s) as [|u rest] eqn:Hpending.
  - right. destruct (updated_list s) eqn:Hupdated.
    + left. done.
    + right. split; [done|]. split; [done|].
      destruct (get_instances_to_sync since) as [|u rest] eqn:Hfetched.
      * exists None, []. split; [done|]. by left.
      * exists (Some u), rest. split; [done|]. right. by exists u.
  - left. by exists u, rest.
Qed.

Lemma next_instance_reach (s s1 : Heal) (u : string) :
  next s = (Some u, s1) → reach s1 < reach s.
Proof.
  intros Hnext.
  destruct (next_instance_cases s)
    as [(u' & rest & Hp & Heq)
       |[(Hp & Hu & Heq)
        |(Hp & Hu & r & rest & Heq & Hr)]];
    rewrite Heq in Hnext; simplify_eq; unfold in_reach; simpl.
  - rewrite Hp. simpl. lia.
  - rewrite Hp, Hu. destruct Hr as [(? & _)|(u' & ? & Hfetched)]; [done|].
    rewrite Hfetched. simpl. lia.
Qed.

Lemma next_instance_fetches (s s1 : Heal) (r : option string) :
  next s = (r, s1) →
  fetched_at_most_once since s s1
  ∧ looked_up s1 = looked_up s ∧ sent s1 = sent s.
Proof.
  intros Hnext. unfold fetched_at_most_once.
  destruct (next_instance_cases s)
    as [(u' & rest & Hp & Heq)
       |[(Hp & Hu & Heq)
        |(Hp & Hu & r' & rest & Heq & Hr)]];
    rewrite Heq in Hnext; simplify_eq; simpl; eauto 10.
Qed.

(** *** The loop [while True] *)

Lemma while_body_again (s s1 : Heal) :
  body s = inl s1 →
  ∃ u s', next s = (Some u, s') ∧ falsy u = false
          ∧ instance_get_by_uuid u = None ∧ s1 = db_lookup u None s'.
Proof.
  unfold while_body. destruct (next s) as [[u|] s'] eqn:Hnext; [|done].
  destruct (falsy u) eqn:Hfalsy; [done|].
  destruct (instance_get_by_uuid u) as [instance|] eqn:Hdb; [done|].
  intros [= <-]. by exists u, s'.
Qed.

Lemma while_body_reach (s s1 : Heal) : body s = inl s1 → reach s1 < reach s.
Proof.
  intros (u & s' & Hnext & _ & _ & ->)%while_body_again.
  apply next_instance_reach in Hnext. exact Hnext.
Qed.

Lemma while_fuel_total (fuel : nat) (s : Heal) :
  reach s < fuel → is_Some (loop_fuel fuel s).
Proof.
  revert s. induction fuel as [|fuel IH]; intros s Hfuel; [lia|].
  simpl. destruct (body s) as [s1|r] eqn:Hbody; [|by eexists].
  apply IH. apply while_body_reach in Hbody. lia.
Qed.

Lemma while_fuel_stable (fuel fuel' : nat) (s : Heal) (r : Exit * Heal) :
  loop_fuel fuel s = Some r → fuel ≤ fuel' → loop_fuel fuel' s = Some r.
Proof.
  revert fuel' s. induction fuel as [|fuel IH]; intros fuel' s Hrun Hle;
    [done|].
  destruct fuel' as [|fuel']; [lia|]. simpl in *.
  destruct (body s) as [s1|r'] eqn:Hbody; [|done].
  apply (IH fuel' s1 Hrun). lia.
Qed.

(** The equation of the loop: the model goes round exactly as
    [while True] does. *)
Lemma while_true_eq (s : Heal) :
  loop s = match body s with
           | inl s1 => loop s1
           | inr r => r
           end.
Proof.
  unfold while_true at 1. simpl.
  destruct (body s) as [s1|r] eqn:Hbody; [|done].
  destruct (while_fuel_total (S (reach s1)) s1) as [r Hrun]; [lia|].
  unfold while_true. rewrite Hrun.
  apply while_body_reach in Hbody.
  rewrite (while_fuel_stable _ (reach s) _ _ Hrun); [done|lia].
Qed.

(** Induction on the passes of the loop. *)
Lemma while_true_ind (P : Heal → Exit * Heal → Prop) :
  (∀ s r, body s = inr r → P s r) →
  (∀ s s1, body s = inl s1 → P s1 (loop s1) → P s (loop s1)) →
  ∀ s, P s (loop s).
Proof.
  intros Hleave Hagain s.
  remember (reach s) as n eqn:Hn. revert s Hn.
  induction n as [n IH] using lt_wf_ind. intros s ->.
  rewrite while_true_eq. destruct (body s) as [s1|r] eqn:Hbody.
  - apply Hagain; [done|]. apply (IH (reach s1)); [|done].
    by apply while_body_reach.
  - by apply Hleave.
Qed.

Lemma while_body_leave (s : Heal) (r : Exit * Heal) :
  body s = inr r →
  (∃ got s1, next s = (got, s1) ∧ r = (Return, s1)
     ∧ (got = None ∨ ∃ u, got = Some u ∧ falsy u = true))
  ∨ (∃ u s1 instance, next s = (Some u, s1) ∧ falsy u = false
       ∧ instance_get_by_uuid u = Some instance
       ∧ r = (Break, _sync_instance instance
                       (db_lookup u (Some instance) s1))).
Proof.
  unfold while_body. destruct (next s) as [[u|] s1] eqn:Hnext.
  - destruct (falsy u) eqn:Hfalsy.
    + intros [= <-]. left. exists (Some u), s1. eauto 10.
    + destruct (instance_get_by_uuid u) as [instance|] eqn:Hdb; [|done].
      intros [= <-]. right. by exists u, s1, instance.
  - intros [= <-]. left. exists None, s1. eauto.
Qed.

(** *** What a run fetches *)

Lemma fetched_refl (s : Heal) : fetched_at_most_once since s s.
Proof. by left. Qed.

Lemma fetched_trans (s s1 s2 : Heal) :
  fetched_at_most_once since s s1 → fetched_at_most_once since s1 s2 →
  fetched_at_most_once since s s2.
Proof.
  unfold fetched_at_most_once.
  intros [[Hs Hu]|(Hu & Hu1 & Hs)] [[Hs' Hu']|(Hv & Hv1 & Hs')].
  - left. split; congruence.
  - right. repeat split; congruence.
  - right. repeat split; congruence.
  - congruence.
Qed.

Lemma fetched_same (s s' : Heal) :
  scans s' = scans s → updated_list s' = updated_list s →
  fetched_at_most_once since s s'.
Proof. by left. Qed.

Lemma sync_instance_fields (instance : Instance) (s : Heal) :
  instances_to_heal (_sync_instance instance s) = instances_to_heal s
  ∧ updated_list (_sync_instance instance s) = updated_list s
  ∧ scans (_sync_instance instance s) = scans s
  ∧ looked_up (_sync_instance instance s) = looked_up s
  ∧ sent (_sync_instance instance s) = sent s ++ [emission_of instance].
Proof.
  unfold _sync_instance, emission_of. by destruct (deleted instance).
Qed.

Lemma while_true_fetches (s : Heal) :
  fetched_at_most_once since s (loop s).2.
Proof.
  apply (while_true_ind (fun s r => fetched_at_most_once since s r.2)).
  - intros s0 r Hbody.
    destruct (while_body_leave _ _ Hbody)
      as [(got & s1 & Hnext & -> & _)
         |(u & s1 & instance & Hnext & _ & _ & ->)];
      apply next_instance_fetches in Hnext as (Hf & _ & _); [done|].
    apply (fetched_trans _ _ _ Hf). simpl.
    destruct (sync_instance_fields instance
                (db_lookup u (Some instance) s1)) as (_ & Hu & Hs & _).
    by apply fetched_same.
  - intros s0 s1 Hbody IH.
    apply while_body_again in Hbody
      as (u & s' & Hnext & _ & _ & ->).
    apply next_instance_fetches in Hnext as (Hf & _ & _).
    apply (fetched_trans _ _ _ Hf).
    apply (fetched_trans _ (db_lookup u None s')); [by left|done].
Qed.

Lemma for_xrange_fetches (n : nat) (s : Heal) :
  fetched_at_most_once since s (slots n s).
Proof.
  revert s. induction n as [|n IH]; intros s; simpl.
  - apply fetched_refl.
  - pose proof (while_true_fetches s) as Hloop.
    destruct (loop s) as [[] s']; simpl in Hloop; [|done].
    by apply (fetched_trans _ s').
Qed.

(** *** What a run looks up and sends *)

Lemma synced_nothing (s s' : Heal) :
  looked_up s' = looked_up s → sent s' = sent s →
  synced_through instance_get_by_uuid [] s s'.
Proof.
  intros Hl Hs. unfold synced_through. simpl.
  rewrite Hl, Hs, !app_nil_r. by repeat split.
Qed.

Lemma synced_trans (log1 log2 : list (string * option Instance))
    (s s1 s2 : Heal) :
  synced_through instance_get_by_uuid log1 s s1 →
  synced_through instance_get_by_uuid log2 s1 s2 →
  synced_through instance_get_by_uuid (log1 ++ log2) s s2.
Proof.
  unfold synced_through, found_in.
  intros (Hl1 & Hs1 & Hdb1) (Hl2 & Hs2 & Hdb2).
  rewrite Hl2, Hl1, Hs2, Hs1, omap_app, map_app, !app_assoc.
  repeat split. by apply Forall_app.
Qed.

Lemma while_true_synced (s : Heal) :
  ∃ log, synced_through instance_get_by_uuid log s (loop s).2
         ∧ length (found_in log)
           = match (loop s).1 with Break => 1 | Return => 0 end.
Proof.
  apply (while_true_ind (fun s r =>
    ∃ log, synced_through instance_get_by_uuid log s r.2
           ∧ length (found_in log)
             = match r.1 with Break => 1 | Return => 0 end)).
  - intros s0 r Hbody.
    destruct (while_body_leave _ _ Hbody)
      as [(got & s1 & Hnext & -> & _)
         |(u & s1 & instance & Hnext & _ & Hdb & ->)];
      apply next_instance_fetches in Hnext as (_ & Hl & Hs).
    + exists []. split; [by apply synced_nothing|done].
    + exists [(u, Some instance)]. split; [|done].
      destruct (sync_instance_fields instance
                  (db_lookup u (Some instance) s1)) as (_ & _ & _ & Hl' & Hs').
      unfold synced_through. simpl. rewrite Hl', Hs'. simpl.
      rewrite Hl, Hs. repeat split. by repeat constructor.
  - intros s0 s1 Hbody (log & Hsync & Hcount).
    apply while_body_again in Hbody
      as (u & s' & Hnext & _ & Hdb & ->).
    apply next_instance_fetches in Hnext as (_ & Hl & Hs).
    exists ((u, None) :: log). split; [|done].
    apply (synced_trans [(u, None)] log s0 (db_lookup u None s')); [|done].
    unfold synced_through. simpl. rewrite Hl, Hs, app_nil_r.
    repeat split. by repeat constructor.
Qed.

Lemma for_xrange_synced (n : nat) (s : Heal) :
  ∃ log, synced_through instance_get_by_uuid log s (slots n s)
         ∧ length (found_in log) ≤ n.
Proof.
  revert s. induction n as [|n IH]; intros s; simpl.
  - exists []. split; [by apply synced_nothing|simpl; lia].
  - destruct (while_true_synced s) as (log & Hsync & Hcount).
    destruct (loop s) as [[] s']; simpl in *.
    + destruct (IH s') as (log' & Hsync' & Hcount').
      exists (log ++ log'). split; [by eapply synced_trans|].
      unfold found_in in *. rewrite omap_app, length_app. lia.
    + exists log. split; [done|lia].
Qed.

(** *** The run as a whole *)

Lemma heal_instances_no_parents (s : Heal) :
  _heal_instances [] get_instances_to_sync instance_get_by_uuid utcnow
                  instance_updated_at_threshold
                  instance_update_num_instances s = s.
Proof. reflexivity. Qed.

Lemma heal_instances_synced (s : Heal) :
  ∃ log, synced_through instance_get_by_uuid log s (heal s)
         ∧ length (found_in log) ≤ Z.to_nat instance_update_num_instances.
Proof.
  unfold _heal_instances. destruct get_parent_cells as [|parent parents].
  - exists []. split; [by apply synced_nothing|simpl; lia].
  - apply (for_xrange_synced (Z.to_nat instance_update_num_instances)
             (mkHeal (instances_to_heal s) false (scans s) (looked_up s)
                     (sent s))).
Qed.

(** C2: a run of [_heal_instances] sends at most
    [instance_update_num_instances] messages (none when that number is
    negative), however many uuids the iterator and the list to fetch hold;
    without parent cells the run changes nothing and sends nothing. *)
Theorem heal_instances_syncs_at_most_num (s : Heal) :
  (∃ new, sent (heal s) = sent s ++ new
          ∧ (Z.of_nat (length new)
             ≤ Z.max 0 instance_update_num_instances)%Z)
  ∧ _heal_instances [] get_instances_to_sync instance_get_by_uuid utcnow
                    instance_updated_at_threshold
                    instance_update_num_instances s = s.
Proof.
  split; [|apply heal_instances_no_parents].
  destruct (heal_instances_synced s) as (log & (_ & Hsent & _) & Hcount).
  exists (map emission_of (found_in log)). split; [done|].
  rewrite length_map. lia.
Qed.

(** C3: a run of [_heal_instances] calls [get_instances_to_sync] at most
    once, with the [updated_since] of the run; and a run that starts on an
    empty iterator and fetches an empty list ends there, with that one call
    and no lookup or message. *)
Theorem heal_instances_fetches_at_most_once (s : Heal) :
  (scans (heal s) = scans s ∨ scans (heal s) = scans s ++ [since])
  ∧ (get_parent_cells ≠ [] →
     (0 < instance_update_num_instances)%Z →
     instances_to_heal s = [] →
     get_instances_to_sync since = [] →
     heal s = mkHeal [] true (scans s ++ [since]) (looked_up s) (sent s)).
Proof.
  split.
  - unfold _heal_instances. destruct get_parent_cells as [|parent parents];
      [by left|].
    destruct (for_xrange_fetches
                (Z.to_nat instance_update_num_instances)
                (mkHeal (instances_to_heal s) false (scans s) (looked_up s)
                        (sent s)))
      as [[Hs _]|(_ & _ & Hs)]; [by left|by right].
  - intros Hparents Hnum Hpending Hfetched.
    unfold _heal_instances. destruct get_parent_cells as [|parent parents];
      [done|].
    destruct (Z.to_nat instance_update_num_instances) as [|n] eqn:Hn; [lia|].
    simpl. rewrite while_true_eq. unfold while_body, _next_instance. simpl.
    rewrite Hpending, Hfetched. reflexivity.
Qed.

(** C7: [_sync_instance] sends a destroy-at-top for a deleted instance and
    an update-at-top for any other; and in a run of [_heal_instances] the
    messages sent are, lookup after lookup, one for every instance the
    database returned, destroy or update by its [deleted] field. *)
Theorem sync_instance_by_deleted_flag (instance : Instance) (s : Heal) :
  (deleted instance = true →
   sent (_sync_instance instance s) = sent s ++ [DestroyAtTop instance])
  ∧ (deleted instance = false →
     sent (_sync_instance instance s) = sent s ++ [UpdateAtTop instance])
  ∧ ∃ log, synced_through instance_get_by_uuid log s (heal s).
Proof.
  unfold _sync_instance. split; [|split].
  - by intros ->.
  - by intros ->.
  - destruct (heal_instances_synced s) as (log & Hsync & _). by exists log.
Qed.

(** C8: when the iterator is empty and the list has not been fetched in
    this run, [_next_instance] fetches it with
    [updated_since = utcnow - threshold] if the threshold is above zero, and
    with [updated_since = None] if the threshold is zero; what it draws from
    is the list fetched with that argument. *)
Theorem next_instance_fetches_since_threshold (s : Heal) :
  instances_to_heal s = [] →
  updated_list s = false →
  ((0 < instance_updated_at_threshold)%Z →
   scans (next s).2
     = scans s ++ [Some (utcnow - instance_updated_at_threshold)%Z]
   ∧ drawn (next s)
     = get_instances_to_sync
         (Some (utcnow - instance_updated_at_threshold)%Z))
  ∧ (instance_updated_at_threshold = 0%Z →
     scans (next s).2 = scans s ++ [None]
     ∧ drawn (next s) = get_instances_to_sync None).
Proof.
  intros Hpending Hupdated.
  assert (scans (next s).2 = scans s ++ [since]
          ∧ drawn (next s) = get_instances_to_sync since) as Hnext.
  { unfold _next_instance, drawn. rewrite Hpending, Hupdated.
    by destruct (get_instances_to_sync since). }
  split.
  - intros Hpos. unfold updated_since in Hnext.
    by rewrite (proj2 (Z.ltb_lt _ _) Hpos) in Hnext.
  - intros Hzero. unfold updated_since in Hnext.
    rewrite Hzero in Hnext |- *. exact Hnext.
Qed.

(** C9: when the uuid drawn is not in the database, the pass of the loop
    sends nothing and the loop goes on with the next uuid, in the same turn
    of the [for] loop: from there the loop and the run end as they would
    have without that uuid. *)
Theorem not_found_goes_to_next_candidate
    (s s1 : Heal) (u : string) (n : nat) :
  next s = (Some u, s1) →
  falsy u = false →
  instance_get_by_uuid u = None →
  loop s = loop (db_lookup u None s1)
  ∧ slots (S n) s = slots (S n) (db_lookup u None s1)
  ∧ sent (db_lookup u None s1) = sent s.
Proof.
  intros Hnext Hfalsy Hdb.
  assert (loop s = loop (db_lookup u None s1)) as Hloop.
  { rewrite (while_true_eq s). unfold while_body.
    by rewrite Hnext, Hfalsy, Hdb. }
  split; [done|]. split.
  - simpl. by rewrite Hloop.
  - apply next_instance_fetches in Hnext as (_ & _ & Hsent). exact Hsent.
Qed.

(** *** What a run draws from the iterator *)

Local Abbreviation stock := (supply get_instances_to_sync since).

Lemma next_instance_supply (s s1 : Heal) (r : option string) :
  next s = (r, s1) → stock s = option_list r ++ stock s1.
Proof.
  intros Hnext. unfold supply.
  destruct (next_instance_cases s)
    as [(u' & rest & Hp & Heq)
       |[(Hp & Hu & Heq)
        |(Hp & Hu & r' & rest & Heq & Hr)]];
    rewrite Heq in Hnext; simplify_eq; simpl.
  - by rewrite Hp.
  - done.
  - rewrite Hp, Hu. simpl.
    destruct Hr as [(-> & -> & ->)|(u & -> & ->)]; simpl;
      by rewrite ?app_nil_r.
Qed.

Lemma next_instance_none (s s1 : Heal) :
  next s = (None, s1) → instances_to_heal s1 = [] ∧ updated_list s1 = true.
Proof.
  intros Hnext.
  destruct (next_instance_cases s)
    as [(u' & rest & Hp & Heq)
       |[(Hp & Hu & Heq)
        |(Hp & Hu & r' & rest & Heq & Hr)]];
    rewrite Heq in Hnext; simplify_eq; simpl; [done|].
  destruct Hr as [(_ & -> & _)|(u & ? & _)]; done.
Qed.

Lemma drew_nothing (uuids : list string) :
  drew_through uuids uuids [] [].
Proof. unfold drew_through. simpl. repeat split; [constructor|by left]. Qed.

Lemma drew_trans (a b c : list string)
    (log1 log2 : list (string * option Instance)) (stop : list string) :
  drew_through a b log1 [] → drew_through b c log2 stop →
  drew_through a c (log1 ++ log2) stop.
Proof.
  unfold drew_through. intros (-> & Ht1 & _) (-> & Ht2 & Hstop).
  rewrite fmap_app. repeat split; [|by apply Forall_app|done].
  simpl. by rewrite <- app_assoc.
Qed.

Lemma drew_one (u : string) (found : option Instance) (rest : list string) :
  falsy u = false → drew_through (u :: rest) rest [(u, found)] [].
Proof.
  intros Hu. unfold drew_through. simpl.
  repeat split; [by repeat constructor|by left].
Qed.

Lemma while_true_draws (s : Heal) :
  ∃ log stop,
    looked_up (loop s).2 = looked_up s ++ log
    ∧ drew_through (stock s) (stock (loop s).2) log stop
    ∧ match (loop s).1 with
      | Break => stop = [] ∧ length (found_in log) = 1
      | Return =>
          found_in log = []
          ∧ (stop ≠ []
             ∨ (instances_to_heal (loop s).2 = []
                ∧ updated_list (loop s).2 = true))
      end.
Proof.
  apply (while_true_ind (fun s r =>
    ∃ log stop,
      looked_up r.2 = looked_up s ++ log
      ∧ drew_through (stock s) (stock r.2) log stop
      ∧ match r.1 with
        | Break => stop = [] ∧ length (found_in log) = 1
        | Return =>
            found_in log = []
            ∧ (stop ≠ []
               ∨ (instances_to_heal r.2 = [] ∧ updated_list r.2 = true))
        end)).
  - intros s0 r Hbody.
    destruct (while_body_leave _ _ Hbody)
      as [(got & s1 & Hnext & -> & Hgot)
         |(u & s1 & instance & Hnext & Hu & Hdb & ->)];
      pose proof (next_instance_supply _ _ _ Hnext) as Hstock;
      pose proof (next_instance_fetches _ _ _ Hnext) as (_ & Hl & _).
    + exists []. destruct Hgot as [->|(u & -> & Hu)].
      * exists []. simpl. rewrite Hl, app_nil_r. split; [done|].
        split; [rewrite Hstock; apply drew_nothing|].
        split; [done|]. right. by apply next_instance_none in Hnext.
      * exists [u]. simpl. rewrite Hl, app_nil_r. split; [done|].
        split; [|split; [done|by left]].
        unfold drew_through. rewrite Hstock. simpl.
        repeat split; [constructor|]. right. by exists u.
    + exists [(u, Some instance)], []. simpl.
      destruct (sync_instance_fields instance
                  (db_lookup u (Some instance) s1))
        as (Hp & Hupd & _ & Hl' & _).
      rewrite Hl'. simpl. rewrite Hl. split; [done|]. split; [|done].
      unfold supply at 2. rewrite Hp, Hupd. simpl.
      rewrite Hstock. simpl. by apply drew_one.
  - intros s0 s1 Hbody (log & stop & Hl1 & Hdrew & Hexit).
    apply while_body_again in Hbody
      as (u & s' & Hnext & Hu & Hdb & ->).
    pose proof (next_instance_supply _ _ _ Hnext) as Hstock.
    pose proof (next_instance_fetches _ _ _ Hnext) as (_ & Hl & _).
    exists ((u, None) :: log), stop. split; [|split].
    + rewrite Hl1. simpl. rewrite Hl. by rewrite <- app_assoc.
    + rewrite Hstock. simpl.
      apply (drew_trans _ (stock s') _ [(u, None)] log stop);
        [by apply drew_one|done].
    + done.
Qed.

Lemma for_xrange_draws (n : nat) (s : Heal) :
  ∃ log stop,
    looked_up (slots n s) = looked_up s ++ log
    ∧ drew_through (stock s) (stock (slots n s)) log stop
    ∧ (length (found_in log) = n
       ∨ stop ≠ []
       ∨ (instances_to_heal (slots n s) = []
          ∧ updated_list (slots n s) = true)).
Proof.
  revert s. induction n as [|n IH]; intros s; simpl.
  - exists [], []. rewrite app_nil_r. split; [done|].
    split; [apply drew_nothing|by left].
  - destruct (while_true_draws s) as (log & stop & Hl & Hdrew & Hexit).
    destruct (loop s) as [[] s']; simpl in *.
    + destruct Hexit as [-> Hcount].
      destruct (IH s') as (log' & stop' & Hl' & Hdrew' & Hend).
      exists (log ++ log'), stop'. split; [|split].
      * rewrite Hl', Hl. by rewrite <- app_assoc.
      * by apply (drew_trans _ (stock s')).
      * unfold found_in in *. rewrite omap_app, length_app.
        destruct Hend as [Hend|Hend]; [left; lia|by right].
    + destruct Hexit as [_ Hend]. exists log, stop.
      split; [done|]. split; [done|]. by right.
Qed.

(** *** Further properties of a run *)

Local Abbreviation started s :=
  (mkHeal (instances_to_heal s) false (scans s) (looked_up s) (sent s)).

Lemma heal_instances_with_parents (s : Heal) :
  get_parent_cells ≠ [] →
  heal s = slots (Z.to_nat instance_update_num_instances) (started s).
Proof.
  intros Hparents. unfold _heal_instances.
  by destruct get_parent_cells.
Qed.

(** X1: with parent cells, a run looks uuids up in the order of the
    iterator followed by the list it would fetch, skipping and repeating
    none: those uuids are the ones looked up (each answered by the
    database, none of them empty), then an empty uuid if one ended the run,
    then what the run leaves to draw. *)
Theorem heal_instances_draws_in_order (s : Heal) :
  get_parent_cells ≠ [] →
  ∃ log stop,
    looked_up (heal s) = looked_up s ++ log
    ∧ Forall (fun entry => entry.2 = instance_get_by_uuid entry.1) log
    ∧ drew_through (instances_to_heal s ++ get_instances_to_sync since)
                   (stock (heal s)) log stop.
Proof.
  intros Hparents.
  destruct (heal_instances_synced s) as (log' & (Hl' & _ & Hdb) & _).
  rewrite (heal_instances_with_parents s Hparents) in *.
  destruct (for_xrange_draws (Z.to_nat instance_update_num_instances)
              (started s)) as (log & stop & Hl & Hdrew & _).
  simpl in Hl. rewrite Hl in Hl'. apply app_inv_head in Hl' as ->.
  by exists log', stop.
Qed.

(** X2: a run looks up at most as many uuids as the iterator and the list
    to fetch hold together, whatever the number of instances per run. *)
Theorem heal_instances_lookups_bounded (s : Heal) :
  ∃ log,
    looked_up (heal s) = looked_up s ++ log
    ∧ length log
      ≤ length (instances_to_heal s)
        + length (get_instances_to_sync since).
Proof.
  destruct (decide (get_parent_cells = [])) as [Hnone|Hparents].
  - exists []. unfold _heal_instances. rewrite Hnone.
    rewrite app_nil_r. split; [done|simpl; lia].
  - destruct (heal_instances_draws_in_order s Hparents)
      as (log & stop & Hl & _ & Hdrew & _).
    exists log. split; [done|].
    apply (f_equal length) in Hdrew.
    rewrite !length_app, length_fmap in Hdrew. lia.
Qed.

(** X3: with parent cells and no empty uuid to draw, a run that sends
    fewer messages than the number of instances per run has fetched the
    list and left the iterator empty. *)
Theorem heal_instances_stops_short_only_when_drained (s : Heal) :
  get_parent_cells ≠ [] →
  Forall truthy (instances_to_heal s ++ get_instances_to_sync since) →
  ∃ new,
    sent (heal s) = sent s ++ new
    ∧ (length new = Z.to_nat instance_update_num_instances
       ∨ (instances_to_heal (heal s) = []
          ∧ updated_list (heal s) = true)).
Proof.
  intros Hparents Htruthy.
  destruct (heal_instances_synced s) as (log' & (Hl' & Hsent & _) & _).
  rewrite (heal_instances_with_parents s Hparents) in *.
  destruct (for_xrange_draws (Z.to_nat instance_update_num_instances)
              (started s)) as (log & stop & Hl & Hdrew & Hend).
  simpl in Hl. rewrite Hl in Hl'. apply app_inv_head in Hl' as ->.
  exists (map emission_of (found_in log')). split; [done|].
  rewrite length_map.
  destruct Hend as [Hcount|[Hstop|Hdrained]]; [by left| |by right].
  destruct Hdrew as (Hstock & _ & [->|(u & -> & Hu)]); [done|].
  unfold supply in Hstock at 1. simpl in Hstock.
  rewrite Hstock in Htruthy.
  apply Forall_app in Htruthy as [_ Htruthy].
  apply Forall_cons in Htruthy as [Htruthy _].
  unfold truthy in Htruthy. congruence.
Qed.

(** X4: with parent cells and a positive number of instances per run, an
    empty uuid at the head of the iterator ends the run at once: it is
    dropped, nothing is fetched, looked up or sent, and the uuids behind it
    stay in the iterator. *)
Theorem heal_instances_empty_uuid_ends_run
    (s : Heal) (u : string) (rest : list string) :
  get_parent_cells ≠ [] →
  (0 < instance_update_num_instances)%Z →
  instances_to_heal s = u :: rest →
  falsy u = true →
  heal s = mkHeal rest false (scans s) (looked_up s) (sent s).
Proof.
  intros Hparents Hnum Hpending Hu.
  rewrite (heal_instances_with_parents s Hparents).
  destruct (Z.to_nat instance_update_num_instances) as [|n] eqn:Hn; [lia|].
  simpl. rewrite while_true_eq. unfold while_body, _next_instance. simpl.
  rewrite Hpending, Hu. reflexivity.
Qed.

Lemma sync_instance_state (instance : Instance) (s : Heal) :
  _sync_instance instance s
  = mkHeal (instances_to_heal s) (updated_list s) (scans s) (looked_up s)
           (sent s ++ [emission_of instance]).
Proof.
  unfold _sync_instance, emission_of. by destruct (deleted instance).
Qed.

Lemma for_xrange_found (n : nat) (s : Heal) :
  n ≤ length (instances_to_heal s) →
  Forall (fun u => truthy u ∧ is_Some (instance_get_by_uuid u))
         (take n (instances_to_heal s)) →
  slots n s
  = mkHeal (drop n (instances_to_heal s)) (updated_list s) (scans s)
           (looked_up s
            ++ lookups instance_get_by_uuid (take n (instances_to_heal s)))
           (sent s
            ++ map emission_of
                 (omap instance_get_by_uuid (take n (instances_to_heal s)))).
Proof.
  revert s. induction n as [|n IH]; intros [pending upd sc lk se]; simpl.
  - intros _ _. by rewrite !app_nil_r.
  - destruct pending as [|u rest]; simpl; [lia|].
    intros Hlen [[Hu [instance Hdb]] Hrest]%Forall_cons.
    rewrite while_true_eq. unfold while_body, _next_instance. simpl.
    unfold truthy in Hu. rewrite Hu, Hdb.
    rewrite sync_instance_state. simpl.
    rewrite IH; simpl; [|lia|done].
    by rewrite <- !app_assoc.
Qed.

(** X5: with parent cells, when the iterator holds at least as many uuids
    as the number of instances per run and the first that many are all
    found in the database (and not empty), the run looks up exactly those,
    sends one message for each in order, fetches nothing, and leaves the
    rest of the iterator. *)
Theorem heal_instances_takes_from_iterator (s : Heal) :
  let n := Z.to_nat instance_update_num_instances in
  let taken := take n (instances_to_heal s) in
  get_parent_cells ≠ [] →
  n ≤ length (instances_to_heal s) →
  Forall (fun u => truthy u ∧ is_Some (instance_get_by_uuid u)) taken →
  heal s
  = mkHeal (drop n (instances_to_heal s)) false (scans s)
           (looked_up s ++ lookups instance_get_by_uuid taken)
           (sent s ++ map emission_of (omap instance_get_by_uuid taken)).
Proof.
  intros n taken Hparents Hlen Hfound.
  rewrite (heal_instances_with_parents s Hparents).
  by rewrite for_xrange_found.
Qed.

Lemma while_true_drains_fetched
    (pending : list string) (sc : list (option Z))
    (lk : list (string * option Instance)) (se : list Emission) :
  Forall (fun u => truthy u ∧ instance_get_by_uuid u = None) pending →
  loop (mkHeal pending true sc lk se)
  = (Return, mkHeal [] true sc
               (lk ++ lookups instance_get_by_uuid pending) se).
Proof.
  revert lk. induction pending as [|u rest IH]; intros lk Hgone.
  - rewrite while_true_eq. simpl. by rewrite app_nil_r.
  - apply Forall_cons in Hgone as [[Hu Hdb] Hrest].
    rewrite while_true_eq. unfold while_body, _next_instance. simpl.
    unfold truthy in Hu. rewrite Hu, Hdb.
    unfold db_lookup. simpl. rewrite IH by done.
    unfold lookups. simpl. rewrite ?Hdb. by rewrite <- app_assoc.
Qed.

Lemma while_true_drains
    (pending : list string) (sc : list (option Z))
    (lk : list (string * option Instance)) (se : list Emission) :
  Forall (fun u => truthy u ∧ instance_get_by_uuid u = None)
         (pending ++ get_instances_to_sync since) →
  loop (mkHeal pending false sc lk se)
  = (Return, mkHeal [] true (sc ++ [since])
               (lk ++ lookups instance_get_by_uuid
                        (pending ++ get_instances_to_sync since)) se).
Proof.
  revert lk. induction pending as [|u rest IH]; intros lk Hgone.
  - simpl in *. rewrite while_true_eq. unfold while_body, _next_instance.
    simpl. destruct (get_instances_to_sync since) as [|u rest] eqn:Hfetched.
    + simpl. by rewrite app_nil_r.
    + apply Forall_cons in Hgone as [[Hu Hdb] Hrest].
      unfold truthy in Hu. rewrite Hu, Hdb.
      unfold db_lookup. simpl. rewrite while_true_drains_fetched by done.
      unfold lookups. simpl. rewrite ?Hdb. by rewrite <- app_assoc.
  - simpl in Hgone. apply Forall_cons in Hgone as [[Hu Hdb] Hrest].
    rewrite while_true_eq. unfold while_body, _next_instance. simpl.
    unfold truthy in Hu. rewrite Hu, Hdb.
    unfold db_lookup. simpl. rewrite IH by done.
    unfold lookups. simpl. rewrite ?Hdb. by rewrite <- app_assoc.
Qed.

(** X6: with parent cells and a positive number of instances per run, when
    none of the uuids in the iterator and in the list to fetch is in the
    database any more, a single run looks all of them up, fetches the list
    once, sends nothing, and leaves the iterator empty: the number of
    instances per run bounds the messages, not the lookups. *)
Theorem heal_instances_drains_missing (s : Heal) :
  let uuids := instances_to_heal s ++ get_instances_to_sync since in
  get_parent_cells ≠ [] →
  (0 < instance_update_num_instances)%Z →
  Forall (fun u => truthy u ∧ instance_get_by_uuid u = None) uuids →
  heal s
  = mkHeal [] true (scans s ++ [since])
           (looked_up s ++ lookups instance_get_by_uuid uuids) (sent s).
Proof.
  intros uuids Hparents Hnum Hgone.
  rewrite (heal_instances_with_parents s Hparents).
  destruct (Z.to_nat instance_update_num_instances) as [|n] eqn:Hn; [lia|].
  simpl. by rewrite while_true_drains.
Qed.

(** X15: once [_next_instance] has returned [None] in a run, every further
    call in that run returns [None] again and changes nothing: it does not
    fetch the list a second time. *)
Theorem next_instance_stays_exhausted (s s1 : Heal) :
  next s = (None, s1) → next s1 = (None, s1).
Proof.
  intros [Hpending Hupdated]%next_instance_none.
  unfold _next_instance. by rewrite Hpending, Hupdated.
Qed.

Lemma fetched_after_update (s s' : Heal) :
  updated_list s = true → fetched_at_most_once since s s' →
  scans s' = scans s ∧ updated_list s' = true.
Proof.
  intros Hupdated [[Hs Hu]|(Hu & _)]; [|congruence].
  split; congruence.
Qed.

Lemma while_body_keeps_scans (s s1 : Heal) (r : option string) :
  next s = (r, s1) →
  match body s with
  | inl s2 | inr (_, s2) =>
      scans s2 = scans s1 ∧ updated_list s2 = updated_list s1
  end.
Proof.
  intros Hnext. unfold while_body. rewrite Hnext.
  destruct r as [u|]; [|done]. destruct (falsy u); [done|].
  destruct (instance_get_by_uuid u) as [instance|]; [|done].
  by destruct (sync_instance_fields instance
                 (db_lookup u (Some instance) s1)) as (_ & -> & -> & _).
Qed.

(** X16: with parent cells and a positive number of instances per run, a
    run that starts on an empty iterator fetches the list, exactly once,
    whatever the run before it did. *)
Theorem heal_instances_fetches_when_iterator_empty (s : Heal) :
  get_parent_cells ≠ [] →
  (0 < instance_update_num_instances)%Z →
  instances_to_heal s = [] →
  scans (heal s) = scans s ++ [since].
Proof.
  intros Hparents Hnum Hpending.
  rewrite (heal_instances_with_parents s Hparents).
  destruct (Z.to_nat instance_update_num_instances) as [|n] eqn:Hn; [lia|].
  assert (scans (loop (started s)).2 = scans s ++ [since]
          ∧ updated_list (loop (started s)).2 = true) as [Hscans Hupdated].
  { destruct (next_instance_cases (started s))
      as [(u & rest & Hp & _)
         |[(_ & Hu & _)
          |(_ & _ & r & rest & Hnext & _)]];
      simpl in *; [congruence|done|].
    pose proof (while_body_keeps_scans _ _ _ Hnext) as Hbody.
    rewrite while_true_eq.
    destruct (body (started s)) as [s2|[e s2]];
      simpl in *; destruct Hbody as [Hs2 Hu2]; [|done].
    destruct (fetched_after_update s2 (loop s2).2 Hu2
                (while_true_fetches s2)) as [Hs Hu].
    split; congruence. }
  simpl. destruct (loop (started s)) as [[] s']; simpl in *; [|done].
  destruct (fetched_after_update s' (slots n s') Hupdated
              (for_xrange_fetches n s')) as [Hs _].
  congruence.
Qed.

End HealFacts.

(** ** The periodic task on the example data *)

(** Two slots: the list is fetched once; the uuid that is gone is looked up
    and passed over within the first slot; the live instance is updated and
    the deleted one destroyed; the fourth uuid stays in the iterator. *)
Example heal_instances_example :
  _heal_instances ["parent"] example_listing example_db 10000 3600 2
                  example_start
  = mkHeal ["live"] true [Some 6400%Z]
           [("gone", None);
            ("live", Some (mkInstance "live" false));
            ("dead", Some (mkInstance "dead" true))]
           [UpdateAtTop (mkInstance "live" false);
            DestroyAtTop (mkInstance "dead" true)].
Proof. vm_compute. reflexivity. Qed.

Lemma heal_instances_fetches_at_most_once_example :
  _heal_instances ["parent"] (fun _ => []) example_db 10000 3600 3
                  example_start
  = mkHeal [] true [Some 6400%Z] [] [].
Proof.
  apply (proj2 (heal_instances_fetches_at_most_once
                  ["parent"] (fun _ => []) example_db 10000 3600 3
                  example_start)).
  - discriminate.
  - lia.
  - reflexivity.
  - reflexivity.
Defined.

Lemma sync_instance_by_deleted_flag_example :
  sent (_sync_instance (mkInstance "dead" true) example_start)
    = [DestroyAtTop (mkInstance "dead" true)]
  ∧ sent (_sync_instance (mkInstance "live" false) example_start)
    = [UpdateAtTop (mkInstance "live" false)].
Proof.
  split.
  - apply (sync_instance_by_deleted_flag
             ["parent"] example_listing example_db 10000 3600 2
             (mkInstance "dead" true) example_start).
    reflexivity.
  - apply (sync_instance_by_deleted_flag
             ["parent"] example_listing example_db 10000 3600 2
             (mkInstance "live" false) example_start).
    reflexivity.
Defined.

Lemma next_instance_fetches_since_threshold_example :
  scans (_next_instance example_listing 10000 3600 example_start).2
    = [Some 6400%Z]
  ∧ scans (_next_instance example_listing 10000 0 example_start).2
    = [None].
Proof.
  split.
  - apply (next_instance_fetches_since_threshold
             example_listing 10000 3600 example_start eq_refl eq_refl).
    lia.
  - apply (next_instance_fetches_since_threshold
             example_listing 10000 0 example_start eq_refl eq_refl).
    reflexivity.
Defined.

Lemma not_found_goes_to_next_candidate_example :
  let s1 := mkHeal ["live"; "dead"; "live"] true [Some 6400%Z] [] [] in
  for_xrange example_listing example_db 10000 3600 1 example_start
  = for_xrange example_listing example_db 10000 3600 1
               (db_lookup "gone" None s1).
Proof.
  intros s1.
  apply (not_found_goes_to_next_candidate
           example_listing example_db 10000 3600 example_start s1
           "gone" 0 eq_refl eq_refl eq_refl).
Defined.

(** ** Further properties of a run on the example data *)

Lemma heal_instances_draws_in_order_example :
  ∃ log stop,
    looked_up (_heal_instances ["parent"] example_listing example_db
                               10000 3600 2 example_start)
      = looked_up example_start ++ log
    ∧ Forall (fun entry => entry.2 = example_db entry.1) log
    ∧ drew_through
        (instances_to_heal example_start
         ++ example_listing (updated_since 10000 3600))
        (supply example_listing (updated_since 10000 3600)
                (_heal_instances ["parent"] example_listing example_db
                                 10000 3600 2 example_start))
        log stop.
Proof.
  apply (heal_instances_draws_in_order
           ["parent"] example_listing example_db 10000 3600 2
           example_start).
  discriminate.
Defined.

Lemma heal_instances_stops_short_only_when_drained_example :
  ∃ new,
    sent (_heal_instances ["parent"] example_listing example_db
                          10000 3600 5 example_start)
      = sent example_start ++ new
    ∧ (length new = Z.to_nat 5
       ∨ (instances_to_heal
            (_heal_instances ["parent"] example_listing example_db
                             10000 3600 5 example_start) = []
          ∧ updated_list
              (_heal_instances ["parent"] example_listing example_db
                               10000 3600 5 example_start) = true)).
Proof.
  apply (heal_instances_stops_short_only_when_drained
           ["parent"] example_listing example_db 10000 3600 5
           example_start).
  - discriminate.
  - repeat constructor.
Defined.

Lemma heal_instances_empty_uuid_ends_run_example :
  _heal_instances ["parent"] example_listing example_db 10000 3600 2
                  (mkHeal [""; "live"] true [] [] [])
  = mkHeal ["live"] false [] [] [].
Proof.
  apply (heal_instances_empty_uuid_ends_run
           ["parent"] example_listing example_db 10000 3600 2
           (mkHeal [""; "live"] true [] [] []) "" ["live"]).
  - discriminate.
  - lia.
  - reflexivity.
  - reflexivity.
Defined.

Lemma heal_instances_takes_from_iterator_example :
  _heal_instances ["parent"] example_listing example_db 10000 3600 2
                  (mkHeal ["live"; "dead"; "live"] true [] [] [])
  = mkHeal ["live"] false []
           [("live", Some (mkInstance "live" false));
            ("dead", Some (mkInstance "dead" true))]
           [UpdateAtTop (mkInstance "live" false);
            DestroyAtTop (mkInstance "dead" true)].
Proof.
  apply (heal_instances_takes_from_iterator
           ["parent"] example_listing example_db 10000 3600 2
           (mkHeal ["live"; "dead"; "live"] true [] [] [])).
  - discriminate.
  - simpl. lia.
  - repeat constructor; by eexists.
Defined.

Lemma heal_instances_drains_missing_example :
  _heal_instances ["parent"] example_listing (fun _ => None) 10000 3600 1
                  (mkHeal ["old"] true [] [] [])
  = mkHeal [] true [Some 6400%Z]
           [("old", None); ("gone", None); ("live", None); ("dead", None);
            ("live", None)]
           [].
Proof.
  apply (heal_instances_drains_missing
           ["parent"] example_listing (fun _ => None) 10000 3600 1
           (mkHeal ["old"] true [] [] [])).
  - discriminate.
  - lia.
  - repeat constructor.
Defined.

(** ** Further properties of the queries *)

Lemma stats_loop_failed (before : list (string * gmap string Z))
    (cell what : string) (after : list (Response (gmap string Z)))
    (totals : gmap string Z) :
  for_in (answers before ++ failed cell what :: after) stats_body totals
  = Raised (RemoteFailure cell what).
Proof.
  revert totals. induction before as [|[c data] before IH]; intros totals.
  - reflexivity.
  - destruct (stats_body_lookup c data totals) as (t1 & Hbody & _).
    change (for_in (answers ((c, data) :: before)
                    ++ failed cell what :: after) stats_body totals)
      with (s' ← stats_body (ok c data) totals;
            for_in (answers before ++ failed cell what :: after)
                   stats_body s').
    rewrite Hbody. apply IH.
Qed.

Lemma sum_key_perm (key : string) (cells cells' : list (string * gmap string Z)) :
  cells ≡ₚ cells' → sum_key key cells = sum_key key cells'.
Proof.
  induction 1 as [|x l l' _ IH|x y l|l l' l'' _ IH1 _ IH2]; simpl in *; lia.
Qed.

Lemma concat_loop_returned {A : Type} (add_cell : A → string → A)
    (responses : list (Response (list A))) (acc rows : list A) :
  for_in responses (concat_body add_cell) acc = Returned rows →
  ∃ cells, responses = answers cells ∧ rows = acc ++ tagged add_cell cells.
Proof.
  revert acc. induction responses as [|[c [v|what]] responses IH];
    intros acc; simpl.
  - intros [= <-]. exists []. by rewrite app_nil_r.
  - unfold concat_body at 1. simpl.
    unfold mbind, result_bind, mret, result_ret. simpl.
    rewrite foldl_append_map. intros (cells & -> & ->)%IH.
    exists ((c, v) :: cells). split; [done|].
    unfold tagged. simpl. by rewrite <- app_assoc.
  - done.
Qed.

Lemma tagged_perm {A : Type} (add_cell : A → string → A)
    (cells cells' : list (string * list A)) :
  cells ≡ₚ cells' → tagged add_cell cells ≡ₚ tagged add_cell cells'.
Proof.
  unfold tagged.
  induction 1 as [|x l l' _ IH|x y l|l l' l'' _ IH1 _ IH2]; simpl.
  - done.
  - by rewrite IH.
  - rewrite !app_assoc. f_equiv. apply Permutation_app_comm.
  - by etrans.
Qed.

Lemma string_drop_prefix (prefix rest : string) (sep : Ascii.ascii) :
  string_drop (String.length prefix + 1) (prefix +:+ String sep rest) = rest.
Proof.
  rewrite Nat.add_1_r. induction prefix as [|c prefix IH]; simpl; done.
Qed.

Section StatsQueryMore.

Context {Payload Service TaskLog ComputeNode : Type}.
Variables msg_runner msg_runner' :
  @MessageRunner Payload Service TaskLog ComputeNode.

Lemma compute_node_stats_loop
    (runner : @MessageRunner Payload Service TaskLog ComputeNode) :
  compute_node_stats runner
  = for_in (mr_compute_node_stats runner) stats_body ∅.
Proof. reflexivity. Qed.

(** X7: when the responses of [compute_node_stats] hold a failure, the
    query raises the failure of the first such response, with the name of
    its cell; the totals of the cells before it are not returned. *)
Theorem compute_node_stats_raises_first_failure
    (before : list (string * gmap string Z)) (bad what : string)
    (after : list (Response (gmap string Z))) :
  mr_compute_node_stats msg_runner
    = answers before ++ failed bad what :: after →
  compute_node_stats msg_runner = Raised (RemoteFailure bad what).
Proof.
  intros Hresp. rewrite compute_node_stats_loop, Hresp.
  apply stats_loop_failed.
Qed.

(** X8: the totals of [compute_node_stats] do not depend on the order in
    which the cells answered: the same successful responses in another
    order give the same map. *)
Theorem compute_node_stats_any_order
    (cells cells' : list (string * gmap string Z)) :
  mr_compute_node_stats msg_runner = answers cells →
  mr_compute_node_stats msg_runner' = answers cells' →
  cells ≡ₚ cells' →
  compute_node_stats msg_runner = compute_node_stats msg_runner'.
Proof.
  intros Hresp Hresp' Hperm. rewrite !compute_node_stats_loop.
  rewrite Hresp, Hresp'.
  destruct (stats_loop cells ∅) as (t & -> & Ht).
  destruct (stats_loop cells' ∅) as (t' & -> & Ht').
  f_equal. apply map_eq. intros k.
  destruct (Ht k) as [Hsum Hdom], (Ht' k) as [Hsum' Hdom'].
  rewrite (sum_key_perm k _ _ Hperm) in Hsum.
  assert (is_Some (t !! k) ↔ is_Some (t' !! k)) as Hsame.
  { rewrite Hdom, Hdom'. by rewrite Hperm. }
  destruct (t !! k) as [v|] eqn:Hv, (t' !! k) as [v'|] eqn:Hv'.
  - simpl in *. f_equal. lia.
  - destruct (proj1 Hsame) as [? [=]]. by eexists.
  - destruct (proj2 Hsame) as [? [=]]. by eexists.
  - done.
Qed.

End StatsQueryMore.

Section ListQueriesMore.

Context {Payload Service TaskLog ComputeNode : Type}.
Variable split_cell_and_item : string → list string.
Variable add_cell_to_service : Service → string → Service.
Variable add_cell_to_task_log : TaskLog → string → TaskLog.
Variable add_cell_to_compute_node : ComputeNode → string → ComputeNode.
Variable compute_topic : string.
Variables msg_runner msg_runner' :
  @MessageRunner Payload Service TaskLog ComputeNode.

(** X9: a list query that returns rows got a value from every cell, and
    the rows are those of all the cells: no list is returned from part of
    the responses. *)
Theorem list_queries_return_only_when_all_succeed
    (filters query state hypervisor_match : Payload)
    (host cell host' : option string)
    (rows_s : list Service) (rows_t : list TaskLog)
    (rows_n : list ComputeNode) :
  (service_get_all add_cell_to_service msg_runner filters = Returned rows_s →
   ∃ cells, mr_service_get_all msg_runner filters = answers cells
            ∧ rows_s = tagged add_cell_to_service cells)
  ∧ (task_log_target split_cell_and_item host = Returned (cell, host') →
     task_log_get_all split_cell_and_item add_cell_to_task_log msg_runner
                      query host state = Returned rows_t →
     ∃ cells, mr_task_log_get_all msg_runner cell query host' state
                = answers cells
              ∧ rows_t = tagged add_cell_to_task_log cells)
  ∧ (compute_node_get_all add_cell_to_compute_node msg_runner
                          hypervisor_match = Returned rows_n →
     ∃ cells, mr_compute_node_get_all msg_runner hypervisor_match
                = answers cells
              ∧ rows_n = tagged add_cell_to_compute_node cells).
Proof.
  split; [|split].
  - rewrite service_get_all_loop.
    intros (cells & Hresp & Hrows)%concat_loop_returned. by exists cells.
  - intros Htarget.
    rewrite (task_log_get_all_loop _ _ _ _ _ _ _ _ Htarget).
    intros (cells & Hresp & Hrows)%concat_loop_returned. by exists cells.
  - rewrite compute_node_get_all_loop.
    intros (cells & Hresp & Hrows)%concat_loop_returned. by exists cells.
Qed.

(** X10: when the same successful responses reach a list query in another
    order, the query returns the same rows, with the same cells added, in
    another order. *)
Theorem list_queries_any_order
    (filters query state hypervisor_match : Payload)
    (cells_s cells_s' : list (string * list Service))
    (cells_t cells_t' : list (string * list TaskLog))
    (cells_n cells_n' : list (string * list ComputeNode)) :
  (mr_service_get_all msg_runner filters = answers cells_s →
   mr_service_get_all msg_runner' filters = answers cells_s' →
   cells_s ≡ₚ cells_s' →
   ∃ rows rows',
     service_get_all add_cell_to_service msg_runner filters = Returned rows
     ∧ service_get_all add_cell_to_service msg_runner' filters
       = Returned rows'
     ∧ rows ≡ₚ rows')
  ∧ (mr_task_log_get_all msg_runner None query None state
       = answers cells_t →
     mr_task_log_get_all msg_runner' None query None state
       = answers cells_t' →
     cells_t ≡ₚ cells_t' →
     ∃ rows rows',
       task_log_get_all split_cell_and_item add_cell_to_task_log msg_runner
                        query None state = Returned rows
       ∧ task_log_get_all split_cell_and_item add_cell_to_task_log
                          msg_runner' query None state = Returned rows'
       ∧ rows ≡ₚ rows')
  ∧ (mr_compute_node_get_all msg_runner hypervisor_match
       = answers cells_n →
     mr_compute_node_get_all msg_runner' hypervisor_match
       = answers cells_n' →
     cells_n ≡ₚ cells_n' →
     ∃ rows rows',
       compute_node_get_all add_cell_to_compute_node msg_runner
                            hypervisor_match = Returned rows
       ∧ compute_node_get_all add_cell_to_compute_node msg_runner'
                              hypervisor_match = Returned rows'
       ∧ rows ≡ₚ rows').
Proof.
  split; [|split]; intros Hresp Hresp' Hperm.
  - exists (tagged add_cell_to_service cells_s),
           (tagged add_cell_to_service cells_s').
    rewrite !service_get_all_loop, Hresp, Hresp'.
    split; [apply (concat_loop_answers _ _ [])|].
    split; [apply (concat_loop_answers _ _ [])|by apply tagged_perm].
  - exists (tagged add_cell_to_task_log cells_t),
           (tagged add_cell_to_task_log cells_t').
    rewrite !(task_log_get_all_loop _ _ _ _ _ None None None eq_refl).
    rewrite Hresp, Hresp'.
    split; [apply (concat_loop_answers _ _ [])|].
    split; [apply (concat_loop_answers _ _ [])|by apply tagged_perm].
  - exists (tagged add_cell_to_compute_node cells_n),
           (tagged add_cell_to_compute_node cells_n').
    rewrite !compute_node_get_all_loop, Hresp, Hresp'.
    split; [apply (concat_loop_answers _ _ [])|].
    split; [apply (concat_loop_answers _ _ [])|by apply tagged_perm].
Qed.

(** X11: a name that [split_cell_and_item] does not split into exactly two
    parts makes [compute_node_get] and [service_get_by_compute_host] raise
    a value error, and so does a topic for [proxy_rpc_to_manager] whose
    text after the compute topic does not split in two; the message runner
    has no part in it. *)
Theorem targeted_queries_reject_unsplit_names
    (name topic : string) (rpc_message : Payload) (call : bool)
    (timeout : option Z) :
  (length (split_cell_and_item name) ≠ 2 →
   compute_node_get split_cell_and_item add_cell_to_compute_node msg_runner
                    name = Raised ValueError
   ∧ service_get_by_compute_host split_cell_and_item add_cell_to_service
                                 msg_runner name = Raised ValueError)
  ∧ (length (split_cell_and_item
               (string_drop (String.length compute_topic + 1) topic)) ≠ 2 →
     proxy_rpc_to_manager split_cell_and_item compute_topic msg_runner
                          topic rpc_message call timeout
       = Raised ValueError).
Proof.
  split.
  - intros Hparts.
    unfold compute_node_get, service_get_by_compute_host.
    by destruct (split_cell_and_item name) as [|? [|? [|? ?]]].
  - intros Hparts. unfold proxy_rpc_to_manager.
    by destruct (split_cell_and_item _) as [|? [|? [|? ?]]].
Qed.

(** X12: when the cell answers with a failure, [compute_node_get] and
    [service_get_by_compute_host] raise that failure under the cell name
    the response carries, also [compute_node_get], which on success adds
    the cell it asked for. *)
Theorem targeted_queries_raise_responder_failure
    (name cell item responder what : string) :
  split_cell_and_item name = [cell; item] →
  (mr_compute_node_get msg_runner cell item = failed responder what →
   compute_node_get split_cell_and_item add_cell_to_compute_node msg_runner
                    name = Raised (RemoteFailure responder what))
  ∧ (mr_service_get_by_compute_host msg_runner cell item
       = failed responder what →
     service_get_by_compute_host split_cell_and_item add_cell_to_service
                                 msg_runner name
       = Raised (RemoteFailure responder what)).
Proof.
  intros Hsplit. split; intros Hresp.
  - unfold compute_node_get. rewrite Hsplit. simpl. by rewrite Hresp.
  - unfold service_get_by_compute_host. rewrite Hsplit. simpl.
    by rewrite Hresp.
Qed.

(** X13: [task_log_get_all] with a host takes the first part of the split
    as the cell and the second, if there is one, as the host, and ignores
    any further part: a host naming only a cell, or with more than two
    parts, is accepted, where the targeted queries raise.  Only an empty
    split raises, an index error. *)
Theorem task_log_get_all_takes_first_two_parts
    (query state : Payload) (h c : string) (more : list string)
    (cells : list (string * list TaskLog)) :
  (split_cell_and_item h = c :: more →
   mr_task_log_get_all msg_runner (Some c) query (head more) state
     = answers cells →
   task_log_get_all split_cell_and_item add_cell_to_task_log msg_runner
                    query (Some h) state
     = Returned (tagged add_cell_to_task_log cells))
  ∧ (split_cell_and_item h = [] →
     task_log_get_all split_cell_and_item add_cell_to_task_log msg_runner
                      query (Some h) state
       = Raised IndexError).
Proof.
  split.
  - intros Hsplit Hresp.
    rewrite (task_log_get_all_loop _ _ _ _ _ (Some h) (Some c) (head more)).
    + rewrite Hresp. apply (concat_loop_answers _ _ []).
    + unfold task_log_target. rewrite Hsplit. by destruct more.
  - intros Hsplit. unfold task_log_get_all, task_log_target.
    by rewrite Hsplit.
Qed.

(** X14: [proxy_rpc_to_manager] reads the cell and the host from what
    follows the first [len(compute_topic) + 1] characters of the topic,
    whatever those characters are: a topic with any prefix of the length
    of the compute topic and any separator is taken, and the topic goes to
    the message runner whole. *)
Theorem proxy_rpc_to_manager_skips_prefix_unread
    (prefix rest cell host : string) (sep : Ascii.ascii)
    (rpc_message : Payload) (call : bool) (timeout : option Z) :
  String.length prefix = String.length compute_topic →
  split_cell_and_item rest = [cell; host] →
  proxy_rpc_to_manager split_cell_and_item compute_topic msg_runner
                       (prefix +:+ String sep rest) rpc_message call timeout
  = value_or_raise_py
      (mr_proxy_rpc_to_manager msg_runner cell host
                               (prefix +:+ String sep rest)
                               rpc_message call timeout).
Proof.
  intros Hlen Hsplit. unfold proxy_rpc_to_manager.
  rewrite <- Hlen, string_drop_prefix, Hsplit. reflexivity.
Qed.

End ListQueriesMore.

(** ** Further properties of the queries on the example data *)

Lemma compute_node_stats_raises_first_failure_example :
  compute_node_stats
    (example_runner None [] (ok "a" "s")
       [ok "a" (<["x" := 1%Z]> ∅); failed "b" "boom";
        ok "c" (<["x" := 3%Z]> ∅)])
  = Raised (RemoteFailure "b" "boom").
Proof.
  apply (compute_node_stats_raises_first_failure
           (example_runner None [] (ok "a" "s")
              [ok "a" (<["x" := 1%Z]> ∅); failed "b" "boom";
               ok "c" (<["x" := 3%Z]> ∅)])
           [("a", <["x" := 1%Z]> ∅)] "b" "boom"
           [ok "c" (<["x" := 3%Z]> ∅)]).
  reflexivity.
Defined.

Lemma compute_node_stats_any_order_example :
  let a : string * gmap string Z := ("a", <["x" := 1%Z]> (<["y" := 2%Z]> ∅)) in
  let b : string * gmap string Z := ("b", <["x" := 3%Z]> ∅) in
  compute_node_stats (example_runner None [] (ok "a" "s") (answers [a; b]))
  = compute_node_stats (example_runner None [] (ok "a" "s") (answers [b; a])).
Proof.
  intros a b.
  apply (compute_node_stats_any_order
           (example_runner None [] (ok "a" "s") (answers [a; b]))
           (example_runner None [] (ok "a" "s") (answers [b; a]))
           [a; b] [b; a]).
  - reflexivity.
  - reflexivity.
  - apply Permutation_swap.
Defined.

Lemma list_queries_return_only_when_all_succeed_example :
  let runner := example_runner None [ok "a" ["1"; "2"]; ok "b" ["3"]]
                  (ok "a" "s") [] in
  (∃ cells, mr_service_get_all runner "filters" = answers cells
            ∧ ["a!1"; "a!2"; "b!3"] = tagged example_add_cell cells)
  ∧ (∃ cells, mr_task_log_get_all runner (Some "a") "task" (Some "host1")
                                  "state" = answers cells
              ∧ ["a!1"; "a!2"; "b!3"] = tagged example_add_cell cells)
  ∧ (∃ cells, mr_compute_node_get_all runner "match" = answers cells
              ∧ ["a!1"; "a!2"; "b!3"] = tagged example_add_cell cells).
Proof.
  intros runner.
  pose proof (list_queries_return_only_when_all_succeed
                example_split example_add_cell example_add_cell
                example_add_cell runner "filters" "task" "state" "match"
                (Some "a@host1") (Some "a") (Some "host1")
                ["a!1"; "a!2"; "b!3"] ["a!1"; "a!2"; "b!3"]
                ["a!1"; "a!2"; "b!3"]) as (Hs & Ht & Hn).
  split; [|split].
  - apply Hs. reflexivity.
  - apply Ht; reflexivity.
  - apply Hn. reflexivity.
Defined.

Lemma list_queries_any_order_example :
  let runner := example_runner None [ok "a" ["1"; "2"]; ok "b" ["3"]]
                  (ok "a" "s") [] in
  let runner' := example_runner None [ok "b" ["3"]; ok "a" ["1"; "2"]]
                   (ok "a" "s") [] in
  (∃ rows rows',
     service_get_all example_add_cell runner "filters" = Returned rows
     ∧ service_get_all example_add_cell runner' "filters" = Returned rows'
     ∧ rows ≡ₚ rows')
  ∧ (∃ rows rows',
       task_log_get_all example_split example_add_cell runner "task"
                        None "state" = Returned rows
       ∧ task_log_get_all example_split example_add_cell runner' "task"
                          None "state" = Returned rows'
       ∧ rows ≡ₚ rows')
  ∧ (∃ rows rows',
       compute_node_get_all example_add_cell runner "match" = Returned rows
       ∧ compute_node_get_all example_add_cell runner' "match"
         = Returned rows'
       ∧ rows ≡ₚ rows').
Proof.
  intros runner runner'.
  pose proof (list_queries_any_order
                example_split example_add_cell example_add_cell
                example_add_cell runner runner' "filters" "task" "state"
                "match"
                [("a", ["1"; "2"]); ("b", ["3"])]
                [("b", ["3"]); ("a", ["1"; "2"])]
                [("a", ["1"; "2"]); ("b", ["3"])]
                [("b", ["3"]); ("a", ["1"; "2"])]
                [("a", ["1"; "2"]); ("b", ["3"])]
                [("b", ["3"]); ("a", ["1"; "2"])]) as (Hs & Ht & Hn).
  split; [|split].
  - apply Hs; [reflexivity|reflexivity|apply Permutation_swap].
  - apply Ht; [reflexivity|reflexivity|apply Permutation_swap].
  - apply Hn; [reflexivity|reflexivity|apply Permutation_swap].
Defined.

Lemma targeted_queries_reject_unsplit_names_example :
  let runner := example_runner None [] (ok "cellB" "node7") [] in
  (compute_node_get example_split example_add_cell runner "7"
     = Raised ValueError
   ∧ service_get_by_compute_host example_split example_add_cell runner "7"
     = Raised ValueError)
  ∧ proxy_rpc_to_manager example_split "compute" runner "compute.host1"
                         "message" true None
    = Raised ValueError.
Proof.
  intros runner.
  pose proof (targeted_queries_reject_unsplit_names
                example_split example_add_cell example_add_cell "compute"
                runner "7" "compute.host1" "message" true None)
    as [Hname Htopic].
  split.
  - apply Hname. simpl. lia.
  - apply Htopic. simpl. lia.
Defined.

Lemma targeted_queries_raise_responder_failure_example :
  let runner := example_runner None [] (failed "cellB" "boom") [] in
  compute_node_get example_split example_add_cell runner "cellA@7"
    = Raised (RemoteFailure "cellB" "boom")
  ∧ service_get_by_compute_host example_split example_add_cell runner
                                "cellA@7"
    = Raised (RemoteFailure "cellB" "boom").
Proof.
  intros runner.
  pose proof (targeted_queries_raise_responder_failure
                example_split example_add_cell example_add_cell runner
                "cellA@7" "cellA" "7" "cellB" "boom" eq_refl)
    as [Hnode Hservice].
  split.
  - apply Hnode. reflexivity.
  - apply Hservice. reflexivity.
Defined.

Lemma task_log_get_all_takes_first_two_parts_example :
  let runner := example_runner None [ok "a" ["1"; "2"]; ok "b" ["3"]]
                  (ok "a" "s") [] in
  task_log_get_all example_split example_add_cell runner "task"
                   (Some "a") "state"
    = Returned ["a!1"; "a!2"; "b!3"]
  ∧ task_log_get_all (fun _ => []) example_add_cell runner "task"
                     (Some "a") "state"
    = Raised IndexError.
Proof.
  intros runner. split.
  - apply (task_log_get_all_takes_first_two_parts
             example_split example_add_cell runner "task" "state"
             "a" "a" [] [("a", ["1"; "2"]); ("b", ["3"])]);
      reflexivity.
  - apply (task_log_get_all_takes_first_two_parts
             (fun _ => []) example_add_cell runner "task" "state"
             "a" "a" [] []).
    reflexivity.
Defined.

Lemma proxy_rpc_to_manager_skips_prefix_unread_example :
  let runner := example_runner (Some (ok "cellA" "reply")) []
                  (ok "a" "s") [] in
  proxy_rpc_to_manager example_split "compute" runner
                       "network/cellA@host1" "message" true None
  = Returned "reply".
Proof.
  intros runner.
  apply (proxy_rpc_to_manager_skips_prefix_unread
           example_split "compute" runner "network" "cellA@host1"
           "cellA" "host1" "/"%char "message" true None);
    reflexivity.
Defined.

Lemma next_instance_stays_exhausted_example :
  _next_instance (fun _ => []) 10000 3600 (mkHeal [] true [Some 6400%Z] [] [])
  = (None, mkHeal [] true [Some 6400%Z] [] []).
Proof.
  apply (next_instance_stays_exhausted
           (fun _ => []) 10000 3600 example_start
           (mkHeal [] true [Some 6400%Z] [] [])).
  reflexivity.
Defined.

Lemma heal_instances_fetches_when_iterator_empty_example :
  scans (_heal_instances ["parent"] example_listing example_db 10000 3600 2
                         (mkHeal [] true [Some 2800%Z] [] []))
  = [Some 2800%Z; Some 6400%Z].
Proof.
  apply (heal_instances_fetches_when_iterator_empty
           ["parent"] example_listing example_db 10000 3600 2
           (mkHeal [] true [Some 2800%Z] [] [])).
  - discriminate.
  - lia.
  - reflexivity.
Defined.
